(** * kolibri/auth/filters.py : HierarchyRelationsFilter

    A shallow embedding of the hierarchy filter of Kolibri's auth module and
    the properties its specification states about it.

    The Python class builds a Django queryset by repeated calls of
    [QuerySet.extra] and one use of [|].  Django itself is an external
    collaborator: a queryset is represented by the term that records how it
    was built ([All], [Extra], [Or]), and the two places where the code asks
    Django about the schema of the base model ([resolve_expression],
    [solve_lookup_type]) are fields of the [Model] record. *)

From Stdlib Require Import ZArith List String Ascii Bool Lia Permutation.
From Stdlib Require Import DecimalString.
Import ListNotations.
Open Scope string_scope.

(** ** Python values *)

(** Exceptions the code can raise.  [NotAValidReference] is the plain
    [Exception("Not a valid reference: ...")] of [_as_sql_reference]
    (the specification's InvalidReferenceKind), [AssertionError] is the failed
    sanity check of [_resolve_f_expression] (UnsupportedLookupQualifier) and
    [FieldError] comes from Django's field resolution.  [TypeError] is what
    [str.join] and [issubclass] raise, [IndexError] an assignment to
    [parts[-1]] in an empty list, [AttributeError] a missing attribute. *)
Inductive PyError : Type :=
| NotAValidReference
| AssertionError
| FieldError
| TypeError
| IndexError
| AttributeError.

Inductive result (A : Type) : Type :=
| Ok (a : A)
| Err (e : PyError).
Arguments Ok {A} a.
Arguments Err {A} e.

(** [int] and [str] values: what an identifier is. *)
Inductive Scalar : Type :=
| SInt (n : Z)
| SStr (s : string).

(** The values a caller can pass for one of the five parameters.
    [PInstance id] is a model instance (an object with an [id] attribute),
    [PF name] is the Django expression [F(name)], [PObject truth] is any other
    object (no [id], neither [str], [int] nor [F], not iterable) with the
    given truth value.  A list holds [int] and [str] items. *)
Inductive PyVal : Type :=
| PNone
| PScalar (v : Scalar)
| PList (items : list Scalar)
| PInstance (id : Scalar)
| PF (name : string)
| PObject (truth : bool).

Definition PInt (n : Z) : PyVal := PScalar (SInt n).
Definition PStr (s : string) : PyVal := PScalar (SStr s).

(** Python's truth value testing, as used by [if x:]. *)
Definition truthy (v : PyVal) : bool :=
  match v with
  | PNone => false
  | PScalar (SInt n) => negb (Z.eqb n 0)
  | PScalar (SStr s) => negb (String.eqb s EmptyString)
  | PList items => match items with [] => false | _ :: _ => true end
  | PInstance _ => true
  | PF _ => true
  | PObject truth => truth
  end.

(** [str(x)] for an [int] or a [str], as [str.format] applies it. *)
Definition py_str (v : Scalar) : string :=
  match v with
  | SInt n => NilZero.string_of_int (Z.to_int n)
  | SStr s => s
  end.

(** [sep.join(items)] on a list of strings. *)
Fixpoint join (sep : string) (items : list string) : string :=
  match items with
  | [] => EmptyString
  | [x] => x
  | x :: rest => x ++ sep ++ join sep rest
  end.

(** The elements of an iterable when all of them are strings. *)
Fixpoint strings_of (items : list Scalar) : result (list string) :=
  match items with
  | [] => Ok []
  | SStr s :: rest =>
      match strings_of rest with
      | Ok l => Ok (s :: l)
      | Err e => Err e
      end
  | _ :: _ => Err TypeError
  end.

Fixpoint chars (s : string) : list string :=
  match s with
  | EmptyString => []
  | String c rest => String c EmptyString :: chars rest
  end.

(** [sep.join(v)] on an arbitrary value: [TypeError] unless [v] is an
    iterable of strings. *)
Definition py_join (sep : string) (v : PyVal) : result string :=
  match v with
  | PList items =>
      match strings_of items with
      | Ok l => Ok (join sep l)
      | Err e => Err e
      end
  | PScalar (SStr s) => Ok (join sep (chars s))
  | _ => Err TypeError
  end.

(** [l[-1] = x] *)
Fixpoint set_last (l : list string) (x : string) : result (list string) :=
  match l with
  | [] => Err IndexError
  | [_] => Ok [x]
  | y :: rest =>
      match set_last rest x with
      | Ok l' => Ok (y :: l')
      | Err e => Err e
      end
  end.

(** ** Django objects *)

(** The result of [F(name).resolve_expression(query)]: all the code reads of
    it is [expression.target.get_attname()]. *)
Record Expression : Type := { target_attname : string }.

(** What the code asks of the base model: its table name, and Django's
    answers to [resolve_expression] and [solve_lookup_type] for a field
    name. *)
Record Model : Type := {
  db_table : string;
  resolve_expression : string -> result Expression;
  solve_lookup_type : string -> result (list string * list string * bool)
}.

(** Keyword arguments of [QuerySet.extra] that the code uses. *)
Record Extras : Type := {
  tables : option (list string);
  where_ : option (list string)
}.

(** A queryset, by construction: [All m] is [m.objects.all()], [Extra q e] is
    [q.extra(...)] with the keyword arguments [e] and [Or a b] is [a | b]. *)
Inductive QuerySet : Type :=
| All (m : Model)
| Extra (q : QuerySet) (e : Extras)
| Or (a b : QuerySet).

(** [queryset.model], which [extra] and [|] keep. *)
Fixpoint model (q : QuerySet) : Model :=
  match q with
  | All m => m
  | Extra q' _ => model q'
  | Or a _ => model a
  end.

(** ** The table registry *)

Inductive TableKey : Type :=
| role_table
| collection_table
| membership_table
| facilityuser_table.

(** [self._table_names]: a dict with exactly these four keys. *)
Record TableNames : Type := {
  role_table_name : string;
  collection_table_name : string;
  membership_table_name : string;
  facilityuser_table_name : string
}.

Definition table_name (names : TableNames) (k : TableKey) : string :=
  match k with
  | role_table => role_table_name names
  | collection_table => collection_table_name names
  | membership_table => membership_table_name names
  | facilityuser_table => facilityuser_table_name names
  end.

(** A [str.format] template with named fields only. *)
Inductive Piece : Type :=
| Lit (s : string)
| Field (k : TableKey).

Definition Template : Type := list Piece.

(** [table.format] applied to the entries of [self._table_names] *)
Fixpoint format (t : Template) (names : TableNames) : string :=
  match t with
  | [] => EmptyString
  | Lit s :: rest => s ++ format rest names
  | Field k :: rest => table_name names k ++ format rest names
  end.

(** The keyword arguments [_add_extras] receives. *)
Record Kwargs : Type := {
  kw_tables : option (list Template);
  kw_where : option (list string)
}.

Definition dq : string := String "034"%char EmptyString.

(** ["{table}" AS "alias"] *)
Definition aliased (k : TableKey) (alias : string) : Template :=
  [Lit dq; Field k; Lit (dq ++ " AS " ++ dq ++ alias ++ dq)].

Definition _role_extra : Kwargs := {|
  kw_tables := Some [aliased facilityuser_table "source_user";
                     aliased role_table "role"];
  kw_where := Some ["role.user_id = source_user.id";
                    "role.collection_id = ancestor_collection.id"]
|}.

Definition _collection_extra : Kwargs := {|
  kw_tables := Some [aliased collection_table "ancestor_collection";
                     aliased collection_table "descendant_collection"];
  kw_where := Some ["descendant_collection.lft BETWEEN ancestor_collection.lft AND ancestor_collection.rght"]
|}.

Definition _membership_extra : Kwargs := {|
  kw_tables := Some [aliased facilityuser_table "target_user";
                     aliased membership_table "membership"];
  kw_where := Some ["membership.user_id = target_user.id";
                    "membership.collection_id = descendant_collection.id"]
|}.

Definition where_only (clauses : list string) : Kwargs :=
  {| kw_tables := None; kw_where := Some clauses |}.

(** ** The interface the methods run against

    The methods read two attributes of [self] and call four operations of a
    queryset.  [M] is the effect of a method body (exceptions, and whatever
    the interpretation keeps of the object store), [Q] is what a Python
    variable bound to a queryset holds.  [qs_resolve_expression q name] is
    [F(name).resolve_expression(q.query)]: Django resolves the name on the
    query of [q] itself, setting up on it what the name needs. *)
Class Runtime (M : Type -> Type) (Q : Type) : Type := {
  ret : forall {A : Type}, A -> M A;
  bind : forall {A B : Type}, M A -> (A -> M B) -> M B;
  raise : forall {A : Type}, PyError -> M A;
  self_queryset : M Q;
  self_table_names : M TableNames;
  qs_extra : Q -> Extras -> M Q;
  qs_or : Q -> Q -> M Q;
  qs_model : Q -> M Model;
  qs_resolve_expression : Q -> string -> M Expression
}.

Declare Scope py_scope.
Delimit Scope py_scope with py.
Notation "x <- c1 ;; c2" := (bind c1 (fun x => c2))
  (at level 61, c1 at next level, right associativity) : py_scope.
Notation "' pat <- c1 ;; c2" := (bind c1 (fun x => match x with pat => c2 end))
  (at level 61, pat pattern, c1 at next level, right associativity) : py_scope.
Open Scope py_scope.

Definition lift {M Q} `{Runtime M Q} {A : Type} (r : result A) : M A :=
  match r with
  | Ok a => ret a
  | Err e => raise e
  end.

(** [assert cond] *)
Definition py_assert {M Q} `{Runtime M Q} (cond : bool) : M unit :=
  if cond then ret tt else raise AssertionError.

Definition is_exact (lookups : list string) : bool :=
  match lookups with
  | [l] => String.eqb l "exact"
  | _ => false
  end.

(** The five parameters of [filter_by_hierarchy], as names of the blocks of
    its second part. *)
Inductive Param : Type :=
| on_source_user
| on_role_kind
| on_ancestor_collection
| on_descendant_collection
| on_target_user.

Definition source_order : list Param :=
  [on_source_user; on_role_kind; on_ancestor_collection;
   on_descendant_collection; on_target_user].

Section Methods.

Context {M : Type -> Type} {Q : Type} `{Runtime M Q}.

(** [collection_kinds.FACILITY] of [kolibri.auth.constants]. *)
Variable FACILITY : string.

Definition _add_extras (queryset : Q) (kwargs : Kwargs) : M Q :=
  names <- self_table_names ;;
  let extras := {|
    tables := option_map (map (fun table => format table names)) (kw_tables kwargs);
    where_ := kw_where kwargs
  |} in
  qs_extra queryset extras.

Definition _resolve_f_expression (f_name : string) : M string :=
  base <- self_queryset ;;
  expression <- qs_resolve_expression base f_name ;;
  m <- qs_model base ;;
  ' (lookups, parts, _) <- lift (solve_lookup_type m f_name) ;;
  _ <- py_assert (is_exact lookups) ;;
  parts <- lift (set_last parts (target_attname expression)) ;;
  ret (join "." (db_table m :: parts)).

Definition _as_sql_reference (ref : PyVal) : M Scalar :=
  match ref with
  | PInstance id => ret id
  | PScalar v => ret v
  | PF name => s <- _resolve_f_expression name ;; ret (SStr s)
  | _ => raise NotAValidReference
  end.

Definition filter_by_hierarchy
    (source_user role_kind ancestor_collection descendant_collection
     target_user : PyVal) : M Q :=
  queryset <- self_queryset ;;
  queryset <-
    (if truthy target_user then
       member_via_hierarchy <- _add_extras queryset _membership_extra ;;
       let where_clause :=
         ["ancestor_collection.kind = '" ++ FACILITY ++ "'";
          "ancestor_collection.dataset_id = target_user.dataset_id"] in
       member_via_facility <- _add_extras queryset (where_only where_clause) ;;
       qs_or member_via_facility member_via_hierarchy
     else ret queryset) ;;
  queryset <- _add_extras queryset _collection_extra ;;
  queryset <-
    (if truthy source_user || truthy role_kind then
       _add_extras queryset _role_extra
     else ret queryset) ;;
  queryset <-
    (if truthy source_user then
       id <- _as_sql_reference source_user ;;
       let where_clause := ["source_user.id = " ++ py_str id] in
       _add_extras queryset (where_only where_clause)
     else ret queryset) ;;
  queryset <-
    (if truthy role_kind then
       let role_kind :=
         match role_kind with
         | PScalar (SStr s) => PList [SStr s]
         | _ => role_kind
         end in
       kind_list <- lift (py_join "','" role_kind) ;;
       let kinds_string := "('" ++ kind_list ++ "')" in
       let where_clause := ["role.kind IN " ++ kinds_string] in
       _add_extras queryset (where_only where_clause)
     else ret queryset) ;;
  queryset <-
    (if truthy ancestor_collection then
       id <- _as_sql_reference ancestor_collection ;;
       let where_clause := ["ancestor_collection.id = " ++ py_str id] in
       _add_extras queryset (where_only where_clause)
     else ret queryset) ;;
  queryset <-
    (if truthy descendant_collection then
       id <- _as_sql_reference descendant_collection ;;
       let where_clause := ["descendant_collection.id = " ++ py_str id] in
       _add_extras queryset (where_only where_clause)
     else ret queryset) ;;
  queryset <-
    (if truthy target_user then
       id <- _as_sql_reference target_user ;;
       let where_clause := ["target_user.id = " ++ py_str id] in
       _add_extras queryset (where_only where_clause)
     else ret queryset) ;;
  ret queryset.

(** *** The two phases on their own

    [phase1] is part 1 of [filter_by_hierarchy] (the structural joins),
    [constrain_id] is the block of part 2 for one of the four identifier
    parameters, [constrain_role_kind] the block for [role_kind].  [phase2]
    runs the blocks of part 2 in a given order: [source_order] is the order
    of the source. *)

Definition constrain_id (alias : string) (param : PyVal) (queryset : Q) : M Q :=
  if truthy param then
    id <- _as_sql_reference param ;;
    let where_clause := [alias ++ ".id = " ++ py_str id] in
    _add_extras queryset (where_only where_clause)
  else ret queryset.

Definition constrain_role_kind (role_kind : PyVal) (queryset : Q) : M Q :=
  if truthy role_kind then
    let role_kind :=
      match role_kind with
      | PScalar (SStr s) => PList [SStr s]
      | _ => role_kind
      end in
    kind_list <- lift (py_join "','" role_kind) ;;
    let kinds_string := "('" ++ kind_list ++ "')" in
    let where_clause := ["role.kind IN " ++ kinds_string] in
    _add_extras queryset (where_only where_clause)
  else ret queryset.

Definition phase1 (source_user role_kind target_user : PyVal) : M Q :=
  queryset <- self_queryset ;;
  queryset <-
    (if truthy target_user then
       member_via_hierarchy <- _add_extras queryset _membership_extra ;;
       let where_clause :=
         ["ancestor_collection.kind = '" ++ FACILITY ++ "'";
          "ancestor_collection.dataset_id = target_user.dataset_id"] in
       member_via_facility <- _add_extras queryset (where_only where_clause) ;;
       qs_or member_via_facility member_via_hierarchy
     else ret queryset) ;;
  queryset <- _add_extras queryset _collection_extra ;;
  if truthy source_user || truthy role_kind then
    _add_extras queryset _role_extra
  else ret queryset.

Definition constrain
    (source_user role_kind ancestor_collection descendant_collection
     target_user : PyVal) (p : Param) (queryset : Q) : M Q :=
  match p with
  | on_source_user => constrain_id "source_user" source_user queryset
  | on_role_kind => constrain_role_kind role_kind queryset
  | on_ancestor_collection =>
      constrain_id "ancestor_collection" ancestor_collection queryset
  | on_descendant_collection =>
      constrain_id "descendant_collection" descendant_collection queryset
  | on_target_user => constrain_id "target_user" target_user queryset
  end.

Fixpoint phase2
    (order : list Param)
    (source_user role_kind ancestor_collection descendant_collection
     target_user : PyVal) (queryset : Q) : M Q :=
  match order with
  | [] => ret queryset
  | p :: rest =>
      queryset <- constrain source_user role_kind ancestor_collection
                    descendant_collection target_user p queryset ;;
      phase2 rest source_user role_kind ancestor_collection
        descendant_collection target_user queryset
  end.

End Methods.

(** ** First interpretation: querysets as values

    [self] is read-only and a variable bound to a queryset holds the term
    that describes it.  This is the interpretation in which the shape of the
    composed query is stated.  [self.queryset] is a queryset here: the
    methods are those of an instance whose base is one (what [__init__]
    itself stores is the subject of the last part). *)

Record Self : Type := {
  queryset : QuerySet;
  _table_names : TableNames
}.

Definition Pure (A : Type) : Type := Self -> result A.

#[export] Instance pure_runtime : Runtime Pure QuerySet := {|
  ret := fun A a _ => Ok a;
  bind := fun A B c k self =>
    match c self with
    | Ok a => k a self
    | Err e => Err e
    end;
  raise := fun A e _ => Err e;
  self_queryset := fun self => Ok (queryset self);
  self_table_names := fun self => Ok (_table_names self);
  qs_extra := fun q e _ => Ok (Extra q e);
  qs_or := fun a b _ => Ok (Or a b);
  qs_model := fun q _ => Ok (model q);
  qs_resolve_expression := fun q name _ => resolve_expression (model q) name
|}.

(** The formatted keyword arguments [_add_extras] hands to [extra]. *)
Definition formatted (names : TableNames) (kwargs : Kwargs) : Extras := {|
  tables := option_map (map (fun table => format table names)) (kw_tables kwargs);
  where_ := kw_where kwargs
|}.

(** ** Reading a composed queryset *)

(** The [extra] calls applied on top of the innermost queryset that is not
    itself the result of [extra], in the order they were applied. *)
Fixpoint attached (q : QuerySet) : list Extras :=
  match q with
  | Extra q' e => (attached q' ++ [e])%list
  | _ => []
  end.

(** The queryset the calls of [attached] were applied to. *)
Fixpoint core (q : QuerySet) : QuerySet :=
  match q with
  | Extra q' _ => core q'
  | _ => q
  end.

(** [q] with the [extra] calls [es] applied in turn. *)
Definition extend (q : QuerySet) (es : list Extras) : QuerySet :=
  fold_left Extra es q.

Definition clauses (e : Extras) : list string :=
  match where_ e with
  | Some l => l
  | None => []
  end.

Definition aliases (e : Extras) : list string :=
  match tables e with
  | Some l => l
  | None => []
  end.

(** The tables joined to the base table, in the order Django collects them
    ([|] appends the tables of its right operand). *)
Fixpoint joined (q : QuerySet) : list string :=
  match q with
  | All _ => []
  | Extra q' e => (joined q' ++ aliases e)%list
  | Or a b => (joined a ++ joined b)%list
  end.

(** The predicate a queryset stands for.  A row assigns a record to the base
    table and to every alias; [holds c r] is the truth of the raw SQL
    condition [c] on [r] and [in_base m r] says that [r] is a row of
    [m.objects.all()].  [extra(where=...)] adds its conditions to the
    conjunction, [|] is the disjunction of its operands. *)
Section Predicate.

Variable Row : Type.
Variable holds : string -> Row -> bool.
Variable in_base : Model -> Row -> bool.

Fixpoint selects (q : QuerySet) (r : Row) : bool :=
  match q with
  | All m => in_base m r
  | Extra q' e => selects q' r && forallb (fun c => holds c r) (clauses e)
  | Or a b => selects a r || selects b r
  end.

(** Every condition of one [extra] call holds on [r]. *)
Definition all_hold (r : Row) (e : Extras) : bool :=
  forallb (fun c => holds c r) (clauses e).

End Predicate.

Definition Param_eq_dec (p p' : Param) : {p = p'} + {p <> p'}.
Proof. decide equality. Defined.

(** Each block of part 2 appears exactly once in [order]. *)
Definition is_arrangement (order : list Param) : bool :=
  forallb (fun p => Nat.eqb (count_occ Param_eq_dec order p) 1) source_order.

(** ** Second interpretation: querysets as objects in a store

    A variable bound to a queryset holds a reference.  The store maps the
    references below [next] to the querysets that exist.  [extra] and [|]
    are Django's: each returns a new object, a copy of the query it starts
    from with the change applied.  Resolving an [F] expression is Django's
    too, and works on the query it is given: [resolved l] lists the names
    that were resolved on the query of object [l], or on the query it was
    copied from before the copy.  The attributes of the
    [HierarchyRelationsFilter] instance are part of the state. *)

Record World : Type := {
  objects : nat -> QuerySet;
  resolved : nat -> list string;
  next : nat;
  inst_queryset : nat;
  inst_table_names : TableNames
}.

Definition Stateful (A : Type) : Type := World -> result A * World.

Definition allocate (t : QuerySet) (names : list string) : Stateful nat :=
  fun w =>
    (Ok (next w),
     {| objects := fun l => if Nat.eqb l (next w) then t else objects w l;
        resolved := fun l => if Nat.eqb l (next w) then names else resolved w l;
        next := S (next w);
        inst_queryset := inst_queryset w;
        inst_table_names := inst_table_names w |}).

(** [F(name).resolve_expression(q.query)] on the object [q]. *)
Definition resolve_in_place (q : nat) (name : string) : Stateful Expression :=
  fun w =>
    (resolve_expression (model (objects w q)) name,
     {| objects := objects w;
        resolved := fun l => if Nat.eqb l q
                             then (resolved w q ++ [name])%list
                             else resolved w l;
        next := next w;
        inst_queryset := inst_queryset w;
        inst_table_names := inst_table_names w |}).

#[export] Instance store_runtime : Runtime Stateful nat | 10 := {|
  ret := fun A a w => (Ok a, w);
  bind := fun A B c k w =>
    match c w with
    | (Ok a, w') => k a w'
    | (Err e, w') => (Err e, w')
    end;
  raise := fun A e w => (Err e, w);
  self_queryset := fun w => (Ok (inst_queryset w), w);
  self_table_names := fun w => (Ok (inst_table_names w), w);
  qs_extra := fun q e w => allocate (Extra (objects w q) e) (resolved w q) w;
  qs_or := fun a b w =>
    allocate (Or (objects w a) (objects w b)) (resolved w a ++ resolved w b)%list w;
  qs_model := fun q w => (Ok (model (objects w q)), w);
  qs_resolve_expression := resolve_in_place
|}.

(** The instance as the first interpretation sees it. *)
Definition self_of (w : World) : Self := {|
  queryset := objects w (inst_queryset w);
  _table_names := inst_table_names w
|}.

(** [w'] is [w] with more objects: the attributes of the instance and every
    object of [w] are as they were. *)
Definition extends (w w' : World) : Prop :=
  inst_queryset w' = inst_queryset w /\
  inst_table_names w' = inst_table_names w /\
  next w <= next w' /\
  forall l, l < next w ->
    objects w' l = objects w l /\ resolved w' l = resolved w l.

(** [w'] is [w] with more objects and with names that satisfy [P] resolved
    on the query of the instance's queryset: the attributes of the instance,
    the way every object of [w] was built and the query of every object of
    [w] but the instance's queryset are as they were. *)
Definition resolves_on_base (P : string -> Prop) (w w' : World) : Prop :=
  inst_queryset w' = inst_queryset w /\
  inst_table_names w' = inst_table_names w /\
  next w <= next w' /\
  (forall l, l < next w -> objects w' l = objects w l) /\
  (forall l, l < next w -> l <> inst_queryset w -> resolved w' l = resolved w l) /\
  exists names,
    resolved w' (inst_queryset w) = (resolved w (inst_queryset w) ++ names)%list /\
    Forall P names.

(** The instance's queryset is one of the objects that exist. *)
Definition live (w : World) : Prop := inst_queryset w < next w.

(** The reference [l] denotes the queryset [t] in [w]. *)
Definition denotes (w : World) (t : QuerySet) (l : nat) : Prop :=
  l < next w /\ objects w l = t.

(** The reference [l] is the instance's queryset, which is [t]. *)
Definition denotes_base (w : World) (t : QuerySet) (l : nat) : Prop :=
  l = inst_queryset w /\ objects w l = t.

Definition same_value {A : Type} (_ : World) (a a' : A) : Prop := a = a'.

(** From [w], the method body [h] run on the store does what [c] computes on
    values: the same exception, or results related by [rel]; and the world
    it leaves is [w] with more objects and names that satisfy [P] resolved
    on the instance's queryset. *)
Definition refines {A B : Type} (rel : World -> A -> B -> Prop)
    (P : string -> Prop) (w : World) (c : Pure A) (h : Stateful B) : Prop :=
  match h w with
  | (Ok b, w') =>
      resolves_on_base P w w' /\ exists a, c (self_of w) = Ok a /\ rel w' a b
  | (Err e, w') => resolves_on_base P w w' /\ c (self_of w) = Err e
  end.

(** The names of the [F] expressions among the identifier parameters. *)
Definition is_f_parameter (su ac dc tu : PyVal) (name : string) : Prop :=
  In (PF name) [su; ac; dc; tu].

(** ** The constructor *)

(** What [HierarchyRelationsFilter(...)] can be called with, and what
    [self.queryset] can hold afterwards: a class that derives from
    [models.Model] (standing for its model), any other class, a queryset, or
    another value that is not a class.  [manager] is what [cls.objects.all()]
    returns when the class has an attribute [objects]: [Some (All m)] for a
    model with the default manager, [None] for a model without one (an
    abstract model, a model whose manager has another name). *)
Inductive Object : Type :=
| ModelClass (m : Model) (manager : option QuerySet)
| OtherClass (name : string)
| AQuerySet (q : QuerySet)
| AValue (v : PyVal).

Record Instance : Type := {
  stored_queryset : Object;
  stored_table_names : TableNames
}.

(** [issubclass(x, models.Model)]: [TypeError] when [x] is not a class. *)
Definition issubclass_Model (x : Object) : result bool :=
  match x with
  | ModelClass _ _ => Ok true
  | OtherClass _ => Ok false
  | AQuerySet _ => Err TypeError
  | AValue _ => Err TypeError
  end.

(** [x.objects.all()] *)
Definition objects_all (x : Object) : result Object :=
  match x with
  | ModelClass _ (Some q) => Ok (AQuerySet q)
  | _ => Err AttributeError
  end.

Section Constructor.

(** [Role._meta.db_table] and the like, of [kolibri.auth.models]. *)
Variable Role_db_table Collection_db_table Membership_db_table
         FacilityUser_db_table : string.

Definition __init__ (queryset : Object) : result Instance :=
  match issubclass_Model queryset with
  | Err e => Err e
  | Ok is_model =>
      match (if is_model then objects_all queryset else Ok queryset) with
      | Err e => Err e
      | Ok queryset =>
          Ok {| stored_queryset := queryset;
                stored_table_names := {|
                  role_table_name := Role_db_table;
                  collection_table_name := Collection_db_table;
                  membership_table_name := Membership_db_table;
                  facilityuser_table_name := FacilityUser_db_table |} |}
      end
  end.

End Constructor.

(** ** What a call attaches

    The [extra] arguments each block of part 2 contributes, read off the
    methods above in the first interpretation: none when the parameter is
    falsy, one condition when it is truthy and resolves. *)

Definition where_extras (conditions : list string) : Extras :=
  {| tables := None; where_ := Some conditions |}.

Definition listified (role_kind : PyVal) : PyVal :=
  match role_kind with
  | PScalar (SStr s) => PList [SStr s]
  | _ => role_kind
  end.

Section Attached.

Variable FACILITY : string.

Definition id_extras (alias : string) (param : PyVal) (self : Self)
  : result (list Extras) :=
  if truthy param then
    match _as_sql_reference param self with
    | Ok id => Ok [where_extras [alias ++ ".id = " ++ py_str id]]
    | Err e => Err e
    end
  else Ok [].

Definition kind_extras (role_kind : PyVal) : result (list Extras) :=
  if truthy role_kind then
    match py_join "','" (listified role_kind) with
    | Ok kind_list => Ok [where_extras ["role.kind IN ('" ++ kind_list ++ "')"]]
    | Err e => Err e
    end
  else Ok [].

Definition step_extras
    (source_user role_kind ancestor_collection descendant_collection
     target_user : PyVal) (p : Param) (self : Self) : result (list Extras) :=
  match p with
  | on_source_user => id_extras "source_user" source_user self
  | on_role_kind => kind_extras role_kind
  | on_ancestor_collection => id_extras "ancestor_collection" ancestor_collection self
  | on_descendant_collection => id_extras "descendant_collection" descendant_collection self
  | on_target_user => id_extras "target_user" target_user self
  end.

Fixpoint value_extras
    (order : list Param)
    (source_user role_kind ancestor_collection descendant_collection
     target_user : PyVal) (self : Self) : result (list Extras) :=
  match order with
  | [] => Ok []
  | p :: rest =>
      match step_extras source_user role_kind ancestor_collection
              descendant_collection target_user p self with
      | Err e => Err e
      | Ok es =>
          match value_extras rest source_user role_kind ancestor_collection
                  descendant_collection target_user self with
          | Err e => Err e
          | Ok es' => Ok (es ++ es')%list
          end
      end
  end.

(** The two alternatives of part 1(a), each built on the base queryset. *)
Definition member_via_facility (self : Self) : QuerySet :=
  Extra (queryset self)
    (where_extras
       ["ancestor_collection.kind = '" ++ FACILITY ++ "'";
        "ancestor_collection.dataset_id = target_user.dataset_id"]).

Definition member_via_hierarchy (self : Self) : QuerySet :=
  Extra (queryset self) (formatted (_table_names self) _membership_extra).

(** The queryset part 1(b) attaches the containment join to. *)
Definition joined_base (target_user : PyVal) (self : Self) : QuerySet :=
  if truthy target_user
  then Or (member_via_facility self) (member_via_hierarchy self)
  else queryset self.

Definition containment (self : Self) : Extras :=
  formatted (_table_names self) _collection_extra.

Definition role_extras (source_user role_kind : PyVal) (self : Self) : list Extras :=
  if truthy source_user || truthy role_kind
  then [formatted (_table_names self) _role_extra]
  else [].

End Attached.

(** Two outcomes of part 2 agree: both fail, or both succeed with the same
    [extra] arguments up to their order. *)
Definition same_outcome (r r' : result (list Extras)) : Prop :=
  match r, r' with
  | Ok es, Ok es' => Permutation es es'
  | Err _, Err _ => True
  | _, _ => False
  end.

(** ** Arguments that need no schema lookup *)

Definition is_str (v : Scalar) : bool :=
  match v with
  | SStr _ => true
  | SInt _ => false
  end.

(** A value for an identifier parameter that is skipped, or is an [int], a
    [str] or a model instance. *)
Definition plain_reference (v : PyVal) : bool :=
  negb (truthy v) ||
  match v with
  | PScalar _ | PInstance _ => true
  | _ => false
  end.

(** A value for [role_kind] that is skipped, or is a string or a list of
    strings. *)
Definition plain_kinds (v : PyVal) : bool :=
  negb (truthy v) ||
  match v with
  | PScalar (SStr _) => true
  | PList items => forallb is_str items
  | _ => false
  end.

(** ** An example schema *)

Module Demo.

Definition names : TableNames := {|
  role_table_name := "kolibriauth_role";
  collection_table_name := "kolibriauth_collection";
  membership_table_name := "kolibriauth_membership";
  facilityuser_table_name := "kolibriauth_facilityuser"
|}.

(** A model with the fields [id], [collection] (a foreign key stored in
    the column [collection_id]) and [created] (a date).  [id__gt] names a
    comparison: [solve_lookup_type] splits it into the lookup [gt] on [id],
    and resolving it as an expression raises [FieldError], as Django does
    when it is asked to follow a name through a field that is not a
    relation.  [created__year] names a transform of the date, which
    resolves as an expression. *)
Definition lookup_of (name : string) : result (list string * list string * bool) :=
  if String.eqb name "id" then Ok (["exact"], ["id"], false)
  else if String.eqb name "collection" then Ok (["exact"], ["collection"], false)
  else if String.eqb name "created" then Ok (["exact"], ["created"], false)
  else if String.eqb name "id__gt" then Ok (["gt"], ["id"], false)
  else if String.eqb name "created__year" then Ok (["year"], ["created"], false)
  else Err FieldError.

Definition resolve (name : string) : result Expression :=
  if String.eqb name "id" then Ok {| target_attname := "id" |}
  else if String.eqb name "collection" then Ok {| target_attname := "collection_id" |}
  else if String.eqb name "created" then Ok {| target_attname := "created" |}
  else if String.eqb name "created__year" then Ok {| target_attname := "created" |}
  else Err FieldError.

Definition log_model : Model := {|
  db_table := "logger_log";
  resolve_expression := resolve;
  solve_lookup_type := lookup_of
|}.

Definition self : Self := {|
  queryset := All log_model;
  _table_names := names
|}.

(** A store that holds the base queryset, as object 0, and the instance. *)
Definition world : World := {|
  objects := fun _ => All log_model;
  resolved := fun _ => [];
  next := 1;
  inst_queryset := 0;
  inst_table_names := names
|}.

End Demo.

(** A model whose [collection] is a relation to a model with a field [kind]:
    [collection__kind] follows the relation, [solve_lookup_type] splits it
    into the lookup [exact] on the path [collection], [kind], and the target
    of the resolved expression is the field [kind]. *)
Module Related.

Definition lookup_of (name : string) : result (list string * list string * bool) :=
  if String.eqb name "id" then Ok (["exact"], ["id"], false)
  else if String.eqb name "collection" then Ok (["exact"], ["collection"], false)
  else if String.eqb name "collection__kind"
       then Ok (["exact"], ["collection"; "kind"], false)
  else Err FieldError.

Definition resolve (name : string) : result Expression :=
  if String.eqb name "id" then Ok {| target_attname := "id" |}
  else if String.eqb name "collection" then Ok {| target_attname := "collection_id" |}
  else if String.eqb name "collection__kind" then Ok {| target_attname := "kind" |}
  else Err FieldError.

Definition log_model : Model := {|
  db_table := "logger_log";
  resolve_expression := resolve;
  solve_lookup_type := lookup_of
|}.

Definition self : Self := {|
  queryset := All log_model;
  _table_names := Demo.names
|}.

Definition world : World := {|
  objects := fun _ => All log_model;
  resolved := fun _ => [];
  next := 1;
  inst_queryset := 0;
  inst_table_names := Demo.names
|}.

End Related.


(** A row described by the raw conditions that are true on it. *)
Module Rows.

Definition Row : Type := list string.

Definition holds (condition : string) (r : Row) : bool :=
  existsb (String.eqb condition) r.

Definition in_base (_ : Model) (_ : Row) : bool := true.

(** A row of a member of collection 7: the membership path holds on it, the
    facility path does not. *)
Definition member_row : Row :=
  ["descendant_collection.lft BETWEEN ancestor_collection.lft AND ancestor_collection.rght";
   "membership.user_id = target_user.id";
   "membership.collection_id = descendant_collection.id";
   "role.user_id = source_user.id";
   "role.collection_id = ancestor_collection.id";
   "source_user.id = logger_log.id";
   "descendant_collection.id = 7";
   "target_user.id = 3"].

End Rows.

(** * Properties *)

Section PureFacts.

Variable FACILITY : string.

Lemma bind_value (A B : Type) (c : Pure A) (k : A -> Pure B) (self : Self) :
  bind c k self = match c self with Ok a => k a self | Err e => Err e end.
Proof. reflexivity. Qed.

Lemma add_extras_value (q : QuerySet) (kwargs : Kwargs) (self : Self) :
  _add_extras q kwargs self = Ok (Extra q (formatted (_table_names self) kwargs)).
Proof. reflexivity. Qed.

Lemma extend_app (q : QuerySet) (es es' : list Extras) :
  extend q (es ++ es')%list = extend (extend q es) es'.
Proof. unfold extend. apply fold_left_app. Qed.

Lemma constrain_id_value (alias : string) (param : PyVal) (q : QuerySet) (self : Self) :
  constrain_id alias param q self =
  match id_extras alias param self with
  | Ok es => Ok (extend q es)
  | Err e => Err e
  end.
Proof.
  unfold constrain_id, id_extras.
  destruct (truthy param); [|reflexivity].
  rewrite bind_value.
  destruct (_as_sql_reference (M:=Pure) param self); reflexivity.
Qed.

Lemma constrain_role_kind_value (role_kind : PyVal) (q : QuerySet) (self : Self) :
  constrain_role_kind role_kind q self =
  match kind_extras role_kind with
  | Ok es => Ok (extend q es)
  | Err e => Err e
  end.
Proof.
  unfold constrain_role_kind, kind_extras.
  destruct (truthy role_kind); [|reflexivity].
  rewrite bind_value. fold (listified role_kind).
  destruct (py_join "','" (listified role_kind)); reflexivity.
Qed.

Lemma constrain_value (su rk ac dc tu : PyVal) (p : Param) (q : QuerySet) (self : Self) :
  constrain su rk ac dc tu p q self =
  match step_extras su rk ac dc tu p self with
  | Ok es => Ok (extend q es)
  | Err e => Err e
  end.
Proof.
  destruct p; simpl;
    first [apply constrain_id_value | apply constrain_role_kind_value].
Qed.

Lemma phase2_value (order : list Param) (su rk ac dc tu : PyVal) (self : Self) :
  forall q,
    phase2 order su rk ac dc tu q self =
    match value_extras order su rk ac dc tu self with
    | Ok es => Ok (extend q es)
    | Err e => Err e
    end.
Proof.
  induction order as [|p rest IH]; intro q; cbn [phase2 value_extras].
  - reflexivity.
  - rewrite bind_value, constrain_value.
    destruct (step_extras su rk ac dc tu p self) as [es|e]; [|reflexivity].
    rewrite IH.
    destruct (value_extras rest su rk ac dc tu self) as [es'|e]; [|reflexivity].
    now rewrite extend_app.
Qed.

Lemma phase1_value (su rk tu : PyVal) (self : Self) :
  phase1 FACILITY su rk tu self =
  Ok (extend (Extra (joined_base FACILITY tu self) (containment self))
             (role_extras su rk self)).
Proof.
  unfold phase1, joined_base, role_extras.
  destruct (truthy tu); destruct (truthy su || truthy rk); reflexivity.
Qed.

(** [filter_by_hierarchy] is part 1 followed by the blocks of part 2 in the
    order of the source. *)
Lemma filter_by_hierarchy_phases (su rk ac dc tu : PyVal) (self : Self) :
  filter_by_hierarchy FACILITY su rk ac dc tu self =
  (q <- phase1 FACILITY su rk tu ;; phase2 source_order su rk ac dc tu q) self.
Proof.
  unfold filter_by_hierarchy, phase1, source_order.
  cbn [phase2 constrain]. unfold constrain_id, constrain_role_kind.
  destruct (truthy tu), (truthy su), (truthy rk), (truthy ac), (truthy dc);
    cbn -[_as_sql_reference py_join];
    repeat (match goal with
            | |- context [match ?c self with _ => _ end] =>
                destruct (c self); cbn -[_as_sql_reference py_join]
            | |- context [py_join ?a ?b] => destruct (py_join a b); cbn -[_as_sql_reference py_join]
            end); reflexivity.
Qed.

Lemma filter_by_hierarchy_value (su rk ac dc tu : PyVal) (self : Self) :
  filter_by_hierarchy FACILITY su rk ac dc tu self =
  match value_extras source_order su rk ac dc tu self with
  | Ok es =>
      Ok (extend (Extra (joined_base FACILITY tu self) (containment self))
                 (role_extras su rk self ++ es)%list)
  | Err e => Err e
  end.
Proof.
  rewrite filter_by_hierarchy_phases, bind_value, phase1_value, phase2_value.
  destruct (value_extras source_order su rk ac dc tu self); [|reflexivity].
  now rewrite extend_app.
Qed.

End PureFacts.

(** ** Part 1: the union and the containment join *)

Lemma attached_extend (q : QuerySet) (es : list Extras) :
  attached (extend q es) = (attached q ++ es)%list.
Proof.
  unfold extend. revert q.
  induction es as [|e es IH]; intro q; cbn [fold_left].
  - now rewrite app_nil_r.
  - rewrite IH. cbn [attached]. now rewrite <- app_assoc.
Qed.

Lemma core_extend (q : QuerySet) (es : list Extras) :
  core (extend q es) = core q.
Proof.
  unfold extend. revert q.
  induction es as [|e es IH]; intro q; cbn [fold_left].
  - reflexivity.
  - now rewrite IH.
Qed.

(** C1, as amended.  When [target_user] is truthy and the call returns a
    queryset, that queryset is the union [member_via_facility |
    member_via_hierarchy] with every other [extra] applied on top of it,
    the containment join first.  Both operands are built directly on the base
    queryset: the first adds two conditions and no table, the second adds the
    aliases [target_user] and [membership] with their two join conditions. *)
Theorem union_precedes_shared_joins
    (FACILITY : string) (su rk ac dc tu : PyVal) (self : Self) (q : QuerySet) :
  truthy tu = true ->
  filter_by_hierarchy FACILITY su rk ac dc tu self = Ok q ->
  exists (path_a path_b : Extras) (rest : list Extras),
    q = extend (Extra (Or (Extra (queryset self) path_a)
                          (Extra (queryset self) path_b))
                      (containment self)) rest /\
    path_a = {| tables := None;
                where_ := Some ["ancestor_collection.kind = '" ++ FACILITY ++ "'";
                                "ancestor_collection.dataset_id = target_user.dataset_id"] |} /\
    path_b = {| tables := Some [dq ++ facilityuser_table_name (_table_names self)
                                   ++ dq ++ " AS " ++ dq ++ "target_user" ++ dq;
                                dq ++ membership_table_name (_table_names self)
                                   ++ dq ++ " AS " ++ dq ++ "membership" ++ dq];
                where_ := Some ["membership.user_id = target_user.id";
                                "membership.collection_id = descendant_collection.id"] |}.
Proof.
  intros Htu Hq.
  rewrite filter_by_hierarchy_value in Hq.
  destruct (value_extras source_order su rk ac dc tu self) as [es|e];
    [|discriminate].
  injection Hq as <-.
  unfold joined_base. rewrite Htu.
  eexists _, _, _. split; [reflexivity|].
  split; reflexivity.
Qed.

Lemma union_precedes_shared_joins_witness :
  truthy (PInstance (SInt 3)) = true /\
  exists (path_a path_b : Extras) (rest : list Extras),
    extend (Extra (Or (member_via_facility "facility" Demo.self)
                      (member_via_hierarchy Demo.self))
                  (containment Demo.self))
           [where_extras ["descendant_collection.id = 7"];
            where_extras ["target_user.id = 3"]]
    = extend (Extra (Or (Extra (queryset Demo.self) path_a)
                        (Extra (queryset Demo.self) path_b))
                    (containment Demo.self)) rest /\
    path_a = {| tables := None;
                where_ := Some ["ancestor_collection.kind = 'facility'";
                                "ancestor_collection.dataset_id = target_user.dataset_id"] |} /\
    path_b = {| tables := Some [dq ++ "kolibriauth_facilityuser"
                                   ++ dq ++ " AS " ++ dq ++ "target_user" ++ dq;
                                dq ++ "kolibriauth_membership"
                                   ++ dq ++ " AS " ++ dq ++ "membership" ++ dq];
                where_ := Some ["membership.user_id = target_user.id";
                                "membership.collection_id = descendant_collection.id"] |}.
Proof.
  split; [reflexivity|].
  apply (union_precedes_shared_joins "facility" PNone PNone PNone (PInt 7)
           (PInstance (SInt 3)) Demo.self); reflexivity.
Defined.

(** C1 as stated fails: [0] is not [None], yet with [target_user=0] the
    result is the base queryset with the containment join and no union. *)
Lemma nonnull_target_user_without_union :
  PInt 0 <> PNone /\
  filter_by_hierarchy "facility" PNone PNone PNone PNone (PInt 0) Demo.self
  = Ok (Extra (All Demo.log_model) (containment Demo.self)).
Proof. split; [discriminate | reflexivity]. Qed.

(** C2.  Whatever the parameters, a call that returns a queryset has
    attached the aliases [ancestor_collection] and [descendant_collection]
    with the one condition [descendant_collection.lft BETWEEN
    ancestor_collection.lft AND ancestor_collection.rght], directly on the
    base queryset (or on the union of part 1(a)); with all five parameters
    [None] the call returns the base queryset with this join and nothing
    else. *)
Theorem containment_always_attached (FACILITY : string) (self : Self) :
  let join_ := {|
    tables := Some [dq ++ collection_table_name (_table_names self)
                       ++ dq ++ " AS " ++ dq ++ "ancestor_collection" ++ dq;
                    dq ++ collection_table_name (_table_names self)
                       ++ dq ++ " AS " ++ dq ++ "descendant_collection" ++ dq];
    where_ := Some ["descendant_collection.lft BETWEEN ancestor_collection.lft AND ancestor_collection.rght"]
  |} in
  (forall (su rk ac dc tu : PyVal) (q : QuerySet),
      filter_by_hierarchy FACILITY su rk ac dc tu self = Ok q ->
      exists rest, q = extend (Extra (joined_base FACILITY tu self) join_) rest) /\
  filter_by_hierarchy FACILITY PNone PNone PNone PNone PNone self
  = Ok (Extra (queryset self) join_).
Proof.
  intro join_.
  split; [|reflexivity].
  intros su rk ac dc tu q Hq.
  rewrite filter_by_hierarchy_value in Hq.
  destruct (value_extras source_order su rk ac dc tu self) as [es|e];
    [|discriminate].
  injection Hq as <-.
  eexists. reflexivity.
Qed.

Lemma containment_always_attached_witness :
  exists rest,
    extend (Extra (All Demo.log_model) (containment Demo.self))
           [formatted Demo.names _role_extra;
            where_extras ["source_user.id = logger_log.collection_id"];
            where_extras ["role.kind IN ('admin','coach')"]]
    = extend (Extra (All Demo.log_model) (containment Demo.self)) rest.
Proof.
  apply (proj1 (containment_always_attached "facility" Demo.self)
           (PF "collection") (PList [SStr "admin"; SStr "coach"])
           PNone PNone PNone).
  reflexivity.
Defined.

(** ** Truthiness decides presence *)

(** C9.  A parameter whose value is falsy is treated as if it had been left
    out: in each of the five positions the call with a falsy [v] is the call
    with [None], in any interpretation of the queryset operations. *)
Theorem falsy_parameter_is_omitted
    {M : Type -> Type} {Q : Type} {R : Runtime M Q}
    (FACILITY : string) (v su rk ac dc tu : PyVal) :
  truthy v = false ->
  filter_by_hierarchy (M:=M) FACILITY v rk ac dc tu
  = filter_by_hierarchy FACILITY PNone rk ac dc tu /\
  filter_by_hierarchy (M:=M) FACILITY su v ac dc tu
  = filter_by_hierarchy FACILITY su PNone ac dc tu /\
  filter_by_hierarchy (M:=M) FACILITY su rk v dc tu
  = filter_by_hierarchy FACILITY su rk PNone dc tu /\
  filter_by_hierarchy (M:=M) FACILITY su rk ac v tu
  = filter_by_hierarchy FACILITY su rk ac PNone tu /\
  filter_by_hierarchy (M:=M) FACILITY su rk ac dc v
  = filter_by_hierarchy FACILITY su rk ac dc PNone.
Proof.
  intro Hv.
  unfold filter_by_hierarchy.
  rewrite !Hv.
  repeat split; reflexivity.
Qed.

(** The integer [0], the empty string and the empty list are falsy. *)
Lemma falsy_values :
  truthy (PInt 0) = false /\ truthy (PStr EmptyString) = false /\
  truthy (PList []) = false /\ truthy PNone = false.
Proof. repeat split. Qed.

Lemma falsy_parameter_is_omitted_witness :
  filter_by_hierarchy (M:=Pure) "facility" (PList []) PNone PNone PNone (PInt 5)
  = filter_by_hierarchy "facility" PNone PNone PNone PNone (PInt 5) /\
  filter_by_hierarchy (M:=Pure) "facility" (PF "id") (PList []) PNone PNone (PInt 5)
  = filter_by_hierarchy "facility" (PF "id") PNone PNone PNone (PInt 5) /\
  filter_by_hierarchy (M:=Pure) "facility" (PF "id") PNone (PList []) PNone (PInt 5)
  = filter_by_hierarchy "facility" (PF "id") PNone PNone PNone (PInt 5) /\
  filter_by_hierarchy (M:=Pure) "facility" (PF "id") PNone PNone (PList []) (PInt 5)
  = filter_by_hierarchy "facility" (PF "id") PNone PNone PNone (PInt 5) /\
  filter_by_hierarchy (M:=Pure) "facility" (PF "id") PNone PNone PNone (PList [])
  = filter_by_hierarchy "facility" (PF "id") PNone PNone PNone PNone.
Proof.
  apply (falsy_parameter_is_omitted (M:=Pure) "facility" (PList [])
           (PF "id") PNone PNone PNone (PInt 5)).
  reflexivity.
Defined.

(** ** The reference resolver *)

Lemma set_last_shape (parts : list string) (x : string) (parts' : list string) :
  set_last parts x = Ok parts' ->
  exists front, parts' = (front ++ [x])%list /\ List.length parts' = List.length parts.
Proof.
  revert parts'.
  induction parts as [|y rest IH]; intros parts' Hset; [discriminate|].
  destruct rest as [|z rest'].
  - injection Hset as <-. now exists [].
  - change (set_last (y :: z :: rest') x)
      with (match set_last (z :: rest') x with
            | Ok l' => Ok (y :: l')
            | Err e => Err e
            end) in Hset.
    destruct (set_last (z :: rest') x) as [l|e]; [|discriminate].
    injection Hset as <-.
    destruct (IH l eq_refl) as (front & -> & Hlen).
    exists (y :: front). split; [reflexivity|].
    cbn [List.length]. now rewrite Hlen.
Qed.

(** The body of [_resolve_f_expression], step by step. *)
Lemma resolve_f_expression_value (name : string) (self : Self) :
  let m := model (queryset self) in
  _resolve_f_expression name self =
  match resolve_expression m name with
  | Err e => Err e
  | Ok expression =>
      match solve_lookup_type m name with
      | Err e => Err e
      | Ok (lookups, parts, _) =>
          if is_exact lookups then
            match set_last parts (target_attname expression) with
            | Ok parts' => Ok (join "." (db_table m :: parts'))
            | Err e => Err e
            end
          else Err AssertionError
      end
  end.
Proof.
  unfold _resolve_f_expression. cbn.
  destruct (resolve_expression (model (queryset self)) name) as [x|e]; cbn;
    [|reflexivity].
  destruct (solve_lookup_type (model (queryset self)) name) as [[[lookups parts] flag]|e];
    cbn; [|reflexivity].
  destruct (is_exact lookups); cbn; [|reflexivity].
  destruct (set_last parts (target_attname x)); reflexivity.
Qed.

Lemma set_last_app (front : list string) (last x : string) :
  set_last (front ++ [last]) x = Ok (front ++ [x])%list.
Proof.
  induction front as [|y front IH]; [reflexivity|].
  cbn [app].
  destruct (front ++ [last])%list as [|z rest] eqn:Hrest.
  - now destruct front.
  - change (set_last (y :: z :: rest) x)
      with (match set_last (z :: rest) x with
            | Ok l' => Ok (y :: l')
            | Err e => Err e
            end).
    now rewrite IH.
Qed.






(** C4, as amended.  An [F] expression whose lookup is anything but the
    single lookup [exact] never resolves: the resolver raises
    [AssertionError] when Django resolves the expression itself, and
    otherwise the error of that resolution, which comes first. *)
Theorem qualified_f_expression_fails
    (self : Self) (name : string)
    (lookups parts : list string) (flag : bool) :
  solve_lookup_type (model (queryset self)) name = Ok (lookups, parts, flag) ->
  is_exact lookups = false ->
  _as_sql_reference (PF name) self
  = match resolve_expression (model (queryset self)) name with
    | Ok _ => Err AssertionError
    | Err e => Err e
    end.
Proof.
  intros Hsolve Hexact.
  cbn [_as_sql_reference]. rewrite bind_value, resolve_f_expression_value.
  cbn zeta. rewrite Hsolve, Hexact.
  destruct (resolve_expression (model (queryset self)) name); reflexivity.
Qed.

Lemma qualified_f_expression_fails_witness :
  _as_sql_reference (PF "created__year") Demo.self = Err AssertionError.
Proof.
  apply (qualified_f_expression_fails Demo.self "created__year"
           ["year"] ["created"] false); reflexivity.
Defined.

(** C4 as stated fails: the lookup of [F("id__gt")] is [gt], and resolving it
    raises [FieldError], not the assertion's error. *)
Lemma qualified_f_expression_field_error :
  solve_lookup_type (model (queryset Demo.self)) "id__gt" = Ok (["gt"], ["id"], false) /\
  is_exact ["gt"] = false /\
  _as_sql_reference (PF "id__gt") Demo.self = Err FieldError /\
  _as_sql_reference (PF "id__gt") Demo.self <> Err AssertionError.
Proof. repeat split. discriminate. Qed.

(** ** The role kind *)

Lemma extend_middle (q : QuerySet) (before after : list Extras) (e : Extras) :
  extend q (before ++ e :: after)%list = extend (Extra (extend q before) e) after.
Proof. now rewrite extend_app. Qed.

Lemma strings_of_strings (kinds : list string) :
  strings_of (map SStr kinds) = Ok kinds.
Proof.
  induction kinds as [|k rest IH]; [reflexivity|].
  cbn. now rewrite IH.
Qed.

Lemma truthy_nonempty_string (k : string) :
  k <> EmptyString -> truthy (PStr k) = true.
Proof.
  intro Hk. cbn. apply String.eqb_neq in Hk. now rewrite Hk.
Qed.

(** C6, as amended.  A non-empty string [k] as [role_kind] gives the same
    result as the list [[k]], and for a non-empty list of strings a call
    that returns has attached the single condition
    [role.kind IN ('k1',...,'kn')] that lists them. *)
Theorem role_kind_set_semantics
    (FACILITY : string) (su ac dc tu : PyVal) (self : Self) :
  (forall k, k <> EmptyString ->
     filter_by_hierarchy FACILITY su (PStr k) ac dc tu self
     = filter_by_hierarchy FACILITY su (PList [SStr k]) ac dc tu self) /\
  (forall kinds q, kinds <> [] ->
     filter_by_hierarchy FACILITY su (PList (map SStr kinds)) ac dc tu self = Ok q ->
     exists before after,
       q = extend
             (Extra
                (extend (Extra (joined_base FACILITY tu self) (containment self)) before)
                {| tables := None;
                   where_ := Some ["role.kind IN ('" ++ join "','" kinds ++ "')"] |})
             after).
Proof.
  split.
  - intros k Hk.
    unfold filter_by_hierarchy.
    rewrite (truthy_nonempty_string k Hk).
    reflexivity.
  - intros kinds q Hkinds Hq.
    rewrite filter_by_hierarchy_value in Hq.
    cbn [value_extras source_order step_extras] in Hq.
    assert (Hkind : kind_extras (PList (map SStr kinds))
                    = Ok [where_extras ["role.kind IN ('" ++ join "','" kinds ++ "')"]]).
    { unfold kind_extras. cbn [listified py_join truthy].
      rewrite strings_of_strings.
      destruct kinds; [contradiction|reflexivity]. }
    rewrite Hkind in Hq.
    destruct (id_extras "source_user" su self) as [e1|e]; [|discriminate].
    destruct (id_extras "ancestor_collection" ac self) as [e3|e]; [|discriminate].
    destruct (id_extras "descendant_collection" dc self) as [e4|e]; [|discriminate].
    destruct (id_extras "target_user" tu self) as [e5|e]; [|discriminate].
    injection Hq as <-.
    exists (role_extras su (PList (map SStr kinds)) self ++ e1)%list,
           (e3 ++ e4 ++ e5 ++ [])%list.
    rewrite <- extend_middle. f_equal.
    now rewrite <- app_assoc.
Qed.

Lemma role_kind_set_semantics_witness :
  filter_by_hierarchy "facility" (PF "id") (PStr "admin") PNone (PInt 7) PNone Demo.self
  = filter_by_hierarchy "facility" (PF "id") (PList [SStr "admin"]) PNone (PInt 7) PNone Demo.self /\
  exists before after,
    extend (Extra (All Demo.log_model) (containment Demo.self))
           [formatted Demo.names _role_extra;
            where_extras ["source_user.id = logger_log.id"];
            where_extras ["role.kind IN ('admin','coach')"];
            where_extras ["descendant_collection.id = 7"]]
    = extend
        (Extra
           (extend (Extra (joined_base "facility" PNone Demo.self) (containment Demo.self))
                   before)
           {| tables := None;
              where_ := Some ["role.kind IN ('" ++ join "','" ["admin"; "coach"] ++ "')"] |})
        after.
Proof.
  pose proof (role_kind_set_semantics "facility" (PF "id") PNone (PInt 7) PNone Demo.self)
    as [Hsingle Hlist].
  split.
  - apply Hsingle. discriminate.
  - apply (Hlist ["admin"; "coach"]); [discriminate | reflexivity].
Defined.

(** C6 as stated fails at the empty string: [role_kind=""] is skipped, while
    [role_kind=[""]] joins the role tables and attaches [role.kind IN ('')]. *)
Lemma empty_role_kind_string_differs :
  filter_by_hierarchy "facility" PNone (PStr EmptyString) PNone PNone PNone Demo.self
  = Ok (Extra (All Demo.log_model) (containment Demo.self)) /\
  filter_by_hierarchy "facility" PNone (PList [SStr EmptyString]) PNone PNone PNone Demo.self
  = Ok (Extra (Extra (Extra (All Demo.log_model) (containment Demo.self))
                     (formatted Demo.names _role_extra))
              (where_extras ["role.kind IN ('')"])) /\
  filter_by_hierarchy "facility" PNone (PStr EmptyString) PNone PNone PNone Demo.self
  <> filter_by_hierarchy "facility" PNone (PList [SStr EmptyString]) PNone PNone PNone Demo.self.
Proof.
  assert (H1 : filter_by_hierarchy "facility" PNone (PStr EmptyString) PNone PNone PNone
                 Demo.self
               = Ok (Extra (All Demo.log_model) (containment Demo.self)))
    by reflexivity.
  assert (H2 : filter_by_hierarchy "facility" PNone (PList [SStr EmptyString]) PNone
                 PNone PNone Demo.self
               = Ok (Extra (Extra (Extra (All Demo.log_model) (containment Demo.self))
                                  (formatted Demo.names _role_extra))
                           (where_extras ["role.kind IN ('')"])))
    by reflexivity.
  split; [exact H1 | split; [exact H2 |]].
  rewrite H1, H2. intro Heq. injection Heq as Heq _. discriminate Heq.
Qed.

(** C3 fails on [role_kind]: the code never hands it to [_as_sql_reference].
    [F("id")] resolves as [source_user], but as [role_kind] it reaches
    [str.join] and raises [TypeError], and so does a model instance. *)
Theorem role_kind_is_not_resolved :
  (forall FACILITY name ac dc tu self,
      filter_by_hierarchy FACILITY PNone (PF name) ac dc tu self = Err TypeError) /\
  (forall FACILITY id ac dc tu self,
      filter_by_hierarchy FACILITY PNone (PInstance id) ac dc tu self = Err TypeError) /\
  _as_sql_reference (PF "id") Demo.self = Ok (SStr "logger_log.id") /\
  filter_by_hierarchy "facility" (PF "id") PNone PNone PNone PNone Demo.self
  = Ok (Extra (Extra (Extra (All Demo.log_model) (containment Demo.self))
                     (formatted Demo.names _role_extra))
              (where_extras ["source_user.id = logger_log.id"])) /\
  filter_by_hierarchy "facility" PNone (PF "id") PNone PNone PNone Demo.self
  = Err TypeError.
Proof.
  repeat split; intros; rewrite filter_by_hierarchy_value; reflexivity.
Qed.

(** The four identifier parameters do go through the resolver: a truthy one
    contributes [alias.id = str(resolved)], or the resolver's error. *)
Lemma id_parameter_is_resolved (alias : string) (param : PyVal) (self : Self) :
  truthy param = true ->
  id_extras alias param self
  = match _as_sql_reference param self with
    | Ok id => Ok [{| tables := None; where_ := Some [alias ++ ".id = " ++ py_str id] |}]
    | Err e => Err e
    end.
Proof. intro Hp. unfold id_extras. now rewrite Hp. Qed.

(** ** The constructor *)

(** C10.  [__init__] applies [issubclass] to its argument as it is: a
    queryset, or any other object that is not a class, raises [TypeError].
    Construction succeeds only for a class: a class that derives from
    [Model] is replaced by what its [objects.all()] returns (and
    [AttributeError] is raised when it has no [objects]), any other class is
    stored unchanged. *)
Theorem init_accepts_classes_only
    (Role_db_table Collection_db_table Membership_db_table
     FacilityUser_db_table : string) :
  let init := __init__ Role_db_table Collection_db_table Membership_db_table
                FacilityUser_db_table in
  let names := {| role_table_name := Role_db_table;
                  collection_table_name := Collection_db_table;
                  membership_table_name := Membership_db_table;
                  facilityuser_table_name := FacilityUser_db_table |} in
  (forall q, init (AQuerySet q) = Err TypeError) /\
  (forall v, init (AValue v) = Err TypeError) /\
  (forall m q, init (ModelClass m (Some q))
               = Ok {| stored_queryset := AQuerySet q;
                       stored_table_names := names |}) /\
  (forall m, init (ModelClass m None) = Err AttributeError) /\
  (forall name, init (OtherClass name)
                = Ok {| stored_queryset := OtherClass name;
                        stored_table_names := names |}) /\
  (forall x inst, init x = Ok inst ->
                  (exists m q, x = ModelClass m (Some q)) \/
                  (exists name, x = OtherClass name)).
Proof.
  cbv zeta. repeat split.
  intros x inst Hinit.
  destruct x as [m [q|]|name|q|v]; try discriminate; eauto.
Qed.

Lemma init_accepts_classes_only_witness :
  __init__ "kolibriauth_role" "kolibriauth_collection" "kolibriauth_membership"
    "kolibriauth_facilityuser" (ModelClass Demo.log_model (Some (All Demo.log_model)))
  = Ok {| stored_queryset := AQuerySet (queryset Demo.self);
          stored_table_names := _table_names Demo.self |} /\
  ((exists m q, ModelClass Demo.log_model (Some (All Demo.log_model))
                = ModelClass m (Some q)) \/
   (exists name, ModelClass Demo.log_model (Some (All Demo.log_model))
                 = OtherClass name)).
Proof.
  split; [reflexivity|].
  destruct (init_accepts_classes_only "kolibriauth_role" "kolibriauth_collection"
              "kolibriauth_membership" "kolibriauth_facilityuser")
    as (_ & _ & _ & _ & _ & Honly).
  eapply Honly. reflexivity.
Defined.

(** ** Part 2: the order of the value constraints *)

Lemma arrangement_permutation (order : list Param) :
  is_arrangement order = true -> Permutation order source_order.
Proof.
  intro Harr.
  apply (Permutation_count_occ Param_eq_dec).
  unfold is_arrangement in Harr. cbn [forallb source_order] in Harr.
  repeat (apply andb_prop in Harr; destruct Harr as [?H Harr]).
  intro p.
  destruct p;
    match goal with
    | H : Nat.eqb ?n 1 = true |- ?n = _ => apply Nat.eqb_eq in H; rewrite H
    end; reflexivity.
Qed.

Lemma same_outcome_trans (r1 r2 r3 : result (list Extras)) :
  same_outcome r1 r2 -> same_outcome r2 r3 -> same_outcome r1 r3.
Proof.
  destruct r1, r2, r3; cbn; try tauto.
  apply Permutation_trans.
Qed.

Lemma value_extras_permutation
    (su rk ac dc tu : PyVal) (self : Self) (order order' : list Param) :
  Permutation order order' ->
  same_outcome (value_extras order su rk ac dc tu self)
               (value_extras order' su rk ac dc tu self).
Proof.
  induction 1 as [|p l l' _ IH|p p' l|l l' l'' _ IH _ IH']; cbn [value_extras].
  - constructor.
  - destruct (step_extras su rk ac dc tu p self); [|exact I].
    destruct (value_extras l su rk ac dc tu self),
             (value_extras l' su rk ac dc tu self); cbn in *; try tauto.
    now apply Permutation_app_head.
  - destruct (step_extras su rk ac dc tu p self),
             (step_extras su rk ac dc tu p' self),
             (value_extras l su rk ac dc tu self); cbn; try exact I.
    apply Permutation_app_swap_app.
  - eapply same_outcome_trans; eassumption.
Qed.

Lemma value_extras_add_no_table
    (su rk ac dc tu : PyVal) (self : Self) (order : list Param) (es : list Extras) :
  value_extras order su rk ac dc tu self = Ok es ->
  Forall (fun e => tables e = None) es.
Proof.
  revert es.
  induction order as [|p rest IH]; intros es Hes; cbn [value_extras] in Hes.
  - injection Hes as <-. constructor.
  - destruct (step_extras su rk ac dc tu p self) as [e1|e] eqn:Hstep; [|discriminate].
    destruct (value_extras rest su rk ac dc tu self) as [e2|e]; [|discriminate].
    injection Hes as <-.
    apply Forall_app. split; [|now apply IH].
    destruct p; cbn [step_extras] in Hstep; unfold id_extras, kind_extras in Hstep;
      repeat match type of Hstep with
             | (if ?b then _ else _) = _ => destruct b
             | match ?c with _ => _ end = _ => destruct c
             end;
      try discriminate; injection Hstep as <-; repeat constructor.
Qed.

Lemma joined_extend_no_table (q : QuerySet) (es : list Extras) :
  Forall (fun e => tables e = None) es -> joined (extend q es) = joined q.
Proof.
  unfold extend. revert q.
  induction es as [|e es IH]; intros q Hes; cbn [fold_left]; [reflexivity|].
  inversion Hes as [|? ? He Hes']; subst.
  rewrite (IH _ Hes'). cbn [joined]. unfold aliases. rewrite He.
  apply app_nil_r.
Qed.

Section Selects.

Variable Row : Type.
Variable holds : string -> Row -> bool.
Variable in_base : Model -> Row -> bool.

Lemma selects_extend (q : QuerySet) (es : list Extras) (r : Row) :
  selects Row holds in_base (extend q es) r
  = selects Row holds in_base q r && forallb (all_hold Row holds r) es.
Proof.
  unfold extend. revert q.
  induction es as [|e es IH]; intro q; cbn [fold_left forallb].
  - now rewrite andb_true_r.
  - rewrite IH. cbn [selects]. fold (all_hold Row holds r e). now rewrite andb_assoc.
Qed.

Lemma forallb_permutation (A : Type) (f : A -> bool) (l l' : list A) :
  Permutation l l' -> forallb f l = forallb f l'.
Proof.
  induction 1 as [|x l l' _ IH|x y l|l l' l'' _ IH _ IH']; cbn.
  - reflexivity.
  - now rewrite IH.
  - now rewrite !andb_assoc, (andb_comm (f y)).
  - now rewrite IH.
Qed.

End Selects.

(** C7.  Run the five blocks of part 2 in any order after part 1: the call
    fails exactly when [filter_by_hierarchy] fails, and otherwise the two
    querysets join the same tables and select the same rows, whatever the
    raw conditions mean. *)
Theorem phase2_order_independent
    (FACILITY : string) (order : list Param) (su rk ac dc tu : PyVal) (self : Self) :
  is_arrangement order = true ->
  match (q <- phase1 FACILITY su rk tu ;; phase2 order su rk ac dc tu q) self,
        filter_by_hierarchy FACILITY su rk ac dc tu self with
  | Ok q, Ok q' =>
      joined q = joined q' /\
      forall (Row : Type) (holds : string -> Row -> bool)
             (in_base : Model -> Row -> bool) (r : Row),
        selects Row holds in_base q r = selects Row holds in_base q' r
  | Err _, Err _ => True
  | _, _ => False
  end.
Proof.
  intro Harr.
  apply arrangement_permutation in Harr.
  pose proof (value_extras_permutation su rk ac dc tu self _ _ Harr) as Hsame.
  rewrite filter_by_hierarchy_phases, !bind_value, phase1_value, !phase2_value.
  pose proof (value_extras_add_no_table su rk ac dc tu self order) as Hno.
  pose proof (value_extras_add_no_table su rk ac dc tu self source_order) as Hno'.
  destruct (value_extras order su rk ac dc tu self) as [es|e],
           (value_extras source_order su rk ac dc tu self) as [es'|e'];
    cbn in Hsame; try tauto.
  split.
  - now rewrite (joined_extend_no_table _ es (Hno _ eq_refl)),
      (joined_extend_no_table _ es' (Hno' _ eq_refl)).
  - intros Row holds in_base r.
    rewrite !selects_extend. f_equal.
    now apply forallb_permutation.
Qed.

Lemma phase2_order_independent_witness :
  let order := [on_target_user; on_descendant_collection; on_ancestor_collection;
                on_role_kind; on_source_user] in
  let su := PF "id" in
  let rk := PList [SStr "admin"; SStr "coach"] in
  let tu := PInstance (SInt 3) in
  exists q q',
    (q <- phase1 "facility" su rk tu ;; phase2 order su rk PNone (PInt 7) tu q) Demo.self
    = Ok q /\
    filter_by_hierarchy "facility" su rk PNone (PInt 7) tu Demo.self = Ok q' /\
    attached q <> attached q' /\
    joined q = joined q' /\
    forall (Row : Type) (holds : string -> Row -> bool)
           (in_base : Model -> Row -> bool) (r : Row),
      selects Row holds in_base q r = selects Row holds in_base q' r.
Proof.
  cbv zeta.
  pose proof (phase2_order_independent "facility"
                [on_target_user; on_descendant_collection; on_ancestor_collection;
                 on_role_kind; on_source_user]
                (PF "id") (PList [SStr "admin"; SStr "coach"]) PNone (PInt 7)
                (PInstance (SInt 3)) Demo.self eq_refl) as H.
  cbn in H. destruct H as [Hjoined Hselects].
  eexists _, _.
  split; [reflexivity|]. split; [reflexivity|].
  split; [discriminate|].
  split; [exact Hjoined | exact Hselects].
Defined.

(** ** Objects in the store: what a call changes *)

Lemma extends_refl (w : World) : extends w w.
Proof. unfold extends. auto. Qed.

Lemma extends_resolves (P : string -> Prop) (w w' : World) :
  live w -> extends w w' -> resolves_on_base P w w'.
Proof.
  intros Hlive (Hq & Hn & Hle & Hobj).
  split; [assumption|]. split; [assumption|]. split; [assumption|].
  split; [|split].
  - intros l Hl. destruct (Hobj l Hl) as [H1 H2]. exact H1.
  - intros l Hl Hne. destruct (Hobj l Hl) as [H1 H2]. exact H2.
  - exists []. rewrite app_nil_r. split; [|constructor].
    now destruct (Hobj _ Hlive).
Qed.

Lemma resolves_refl (P : string -> Prop) (w : World) : resolves_on_base P w w.
Proof.
  unfold resolves_on_base. repeat split; auto.
  exists []. now rewrite app_nil_r.
Qed.

Lemma resolves_trans (P : string -> Prop) (w1 w2 w3 : World) :
  resolves_on_base P w1 w2 -> resolves_on_base P w2 w3 -> resolves_on_base P w1 w3.
Proof.
  intros (Hq & Hn & Hle & Hobj & Hres & names & Hbase & HP)
         (Hq' & Hn' & Hle' & Hobj' & Hres' & names' & Hbase' & HP').
  split; [congruence|]. split; [congruence|]. split; [lia|].
  split; [|split].
  - intros l Hl. rewrite Hobj' by lia. now apply Hobj.
  - intros l Hl Hne. rewrite Hres' by (try lia; congruence). now apply Hres.
  - exists (names ++ names')%list.
    rewrite Hq in Hbase'. rewrite Hbase', Hbase, app_assoc.
    split; [reflexivity|]. now apply Forall_app.
Qed.

Lemma resolves_live (P : string -> Prop) (w w' : World) :
  live w -> resolves_on_base P w w' -> live w'.
Proof. unfold live. intros Hlive (Hq & _ & Hle & _). lia. Qed.

Lemma resolves_self (P : string -> Prop) (w w' : World) :
  live w -> resolves_on_base P w w' -> self_of w' = self_of w.
Proof.
  unfold live, self_of. intros Hlive (Hq & Hn & _ & Hobj & _).
  rewrite Hq, Hn, Hobj by assumption. reflexivity.
Qed.

Lemma resolves_denotes (P : string -> Prop) (w w' : World) (t : QuerySet) (l : nat) :
  resolves_on_base P w w' -> denotes w t l -> denotes w' t l.
Proof.
  intros (_ & _ & Hle & Hobj & _) (Hl & Ht).
  split; [lia|]. now rewrite Hobj.
Qed.

Lemma resolves_denotes_base
    (P : string -> Prop) (w w' : World) (t : QuerySet) (l : nat) :
  live w -> resolves_on_base P w w' -> denotes_base w t l -> denotes_base w' t l.
Proof.
  unfold live. intros Hlive (Hq & _ & _ & Hobj & _) (Hl & Ht).
  split; [congruence|]. rewrite Hobj; [assumption|]. now subst l.
Qed.

(** When no name satisfies [P], nothing that existed has changed. *)
Lemma resolves_nothing (P : string -> Prop) (w w' : World) :
  (forall name, ~ P name) -> resolves_on_base P w w' -> extends w w'.
Proof.
  intros HP (Hq & Hn & Hle & Hobj & Hres & names & Hbase & Hnames).
  split; [assumption|]. split; [assumption|]. split; [assumption|].
  intros l Hl. split; [now apply Hobj|].
  destruct (Nat.eq_dec l (inst_queryset w)) as [->|Hne]; [|now apply Hres].
  destruct names as [|name names].
  - now rewrite Hbase, app_nil_r.
  - inversion Hnames as [|? ? Hname _]; subst. now apply HP in Hname.
Qed.

Lemma allocate_extends (t : QuerySet) (names : list string) (w : World) :
  extends w (snd (allocate t names w)) /\
  denotes (snd (allocate t names w)) t (next w) /\
  fst (allocate t names w) = Ok (next w).
Proof.
  unfold extends, denotes, allocate; cbn.
  split; [|split; [|reflexivity]].
  - split; [reflexivity|]. split; [reflexivity|]. split; [lia|].
    intros l Hl.
    destruct (Nat.eqb_spec l (next w)); [lia|]. now split.
  - split; [lia|]. now rewrite Nat.eqb_refl.
Qed.

Lemma resolve_in_place_base (P : string -> Prop) (name : string) (w : World) :
  P name ->
  resolves_on_base P w (snd (resolve_in_place (inst_queryset w) name w)).
Proof.
  intro HP. unfold resolves_on_base, resolve_in_place; cbn.
  split; [reflexivity|]. split; [reflexivity|]. split; [lia|].
  split; [reflexivity|]. split.
  - intros l _ Hne.
    destruct (Nat.eqb_spec l (inst_queryset w)); [contradiction|reflexivity].
  - exists [name]. rewrite Nat.eqb_refl. split; [reflexivity|]. now constructor.
Qed.

Section Refinement.

Variable FACILITY : string.

(** The names that may be resolved on the instance's queryset. *)
Variable P : string -> Prop.

Lemma refines_bind (A A' B B' : Type)
    (rel : World -> A -> A' -> Prop) (rel' : World -> B -> B' -> Prop)
    (w : World) (c : Pure A) (h : Stateful A')
    (k : A -> Pure B) (k' : A' -> Stateful B') :
  live w ->
  refines rel P w c h ->
  (forall a a' w1,
      live w1 -> resolves_on_base P w w1 -> rel w1 a a' ->
      refines rel' P w1 (k a) (k' a')) ->
  refines rel' P w (bind c k) (bind h k').
Proof.
  unfold refines. intros Hlive Hc Hk. cbn.
  destruct (h w) as [[a'|e] w1].
  - destruct Hc as (Hext & a & Hca & Hrel).
    rewrite Hca.
    specialize (Hk a a' w1 (resolves_live _ _ _ Hlive Hext) Hext Hrel).
    rewrite (resolves_self _ _ _ Hlive Hext) in Hk.
    destruct (k' a' w1) as [[b'|e] w2].
    + destruct Hk as (Hext' & b & Hkb & Hrel').
      split; [eapply resolves_trans; eassumption|]. now exists b.
    + destruct Hk as (Hext' & Hkb).
      split; [eapply resolves_trans; eassumption|assumption].
  - destruct Hc as (Hext & Hca). now rewrite Hca.
Qed.

Lemma refines_ret (A : Type) (w : World) (a : A) :
  refines same_value P w (ret a) (ret a).
Proof. split; [apply resolves_refl|]. now exists a. Qed.

Lemma refines_ret_object (w : World) (t : QuerySet) (l : nat) :
  denotes w t l -> refines denotes P w (ret t) (ret l).
Proof. intro Hl. split; [apply resolves_refl|]. now exists t. Qed.

Lemma refines_raise (A B : Type) (rel : World -> A -> B -> Prop)
    (w : World) (e : PyError) :
  refines rel P w (raise e) (raise e).
Proof. split; [apply resolves_refl|reflexivity]. Qed.

Lemma refines_lift (A : Type) (w : World) (r : result A) :
  refines same_value P w (lift r) (lift r).
Proof.
  destruct r as [a|e].
  - apply (refines_ret A).
  - apply (refines_raise A A).
Qed.

Lemma refines_assert (w : World) (cond : bool) :
  refines same_value P w (py_assert cond) (py_assert cond).
Proof.
  destruct cond.
  - apply (refines_ret unit).
  - apply (refines_raise unit unit).
Qed.

Lemma refines_self_queryset (w : World) :
  live w -> refines denotes P w self_queryset self_queryset.
Proof.
  intro Hlive. split; [apply resolves_refl|].
  exists (objects w (inst_queryset w)). now repeat split.
Qed.

Lemma refines_self_queryset_base (w : World) :
  refines denotes_base P w self_queryset self_queryset.
Proof.
  split; [apply resolves_refl|].
  exists (objects w (inst_queryset w)). now repeat split.
Qed.

Lemma refines_self_table_names (w : World) :
  refines same_value P w self_table_names self_table_names.
Proof. split; [apply resolves_refl|]. now eexists. Qed.

Lemma refines_extra (w : World) (t : QuerySet) (l : nat) (e : Extras) :
  live w -> denotes w t l -> refines denotes P w (qs_extra t e) (qs_extra l e).
Proof.
  intros Hlive (Hl & Ht). unfold refines. cbn.
  destruct (allocate_extends (Extra (objects w l) e) (resolved w l) w)
    as (Hext & Hden & _).
  cbn in Hext, Hden.
  split; [now apply extends_resolves|].
  exists (Extra t e). rewrite <- Ht. now split.
Qed.

Lemma refines_or (w : World) (t t' : QuerySet) (l l' : nat) :
  live w -> denotes w t l -> denotes w t' l' ->
  refines denotes P w (qs_or t t') (qs_or l l').
Proof.
  intros Hlive (Hl & Ht) (Hl' & Ht'). unfold refines. cbn.
  destruct (allocate_extends (Or (objects w l) (objects w l'))
              (resolved w l ++ resolved w l') w) as (Hext & Hden & _).
  cbn in Hext, Hden.
  split; [now apply extends_resolves|].
  exists (Or t t'). rewrite <- Ht, <- Ht'. now split.
Qed.

Lemma refines_model (w : World) (t : QuerySet) (l : nat) :
  objects w l = t -> refines same_value P w (qs_model t) (qs_model l).
Proof.
  intro Ht. split; [apply resolves_refl|].
  exists (model t). now rewrite <- Ht.
Qed.

Lemma refines_resolve_expression
    (w : World) (t : QuerySet) (l : nat) (name : string) :
  P name -> denotes_base w t l ->
  refines same_value P w (qs_resolve_expression t name)
                         (qs_resolve_expression l name).
Proof.
  intros HP (Hl & Ht). subst l. unfold refines.
  pose proof (resolve_in_place_base P name w HP) as Hres.
  change (qs_resolve_expression (M:=Stateful) (inst_queryset w) name w)
    with (resolve_in_place (inst_queryset w) name w).
  change (qs_resolve_expression (M:=Pure) t name (self_of w))
    with (resolve_expression (model t) name).
  destruct (resolve_in_place (inst_queryset w) name w) as [r w'] eqn:Hrun.
  unfold resolve_in_place in Hrun. injection Hrun as Hr Hw.
  rewrite Ht in Hr. cbn [snd] in Hres.
  destruct r as [x|e]; (split; [assumption|]).
  - exists x. now split.
  - now symmetry.
Qed.

Lemma refines_add_extras (w : World) (t : QuerySet) (l : nat) (kwargs : Kwargs) :
  live w -> denotes w t l ->
  refines denotes P w (_add_extras t kwargs) (_add_extras l kwargs).
Proof.
  intros Hlive Hl. unfold _add_extras.
  apply refines_bind with (rel := same_value); [assumption| |].
  - apply refines_self_table_names.
  - intros names names' w1 Hlive1 Hext Hsame; red in Hsame; subst.
    apply refines_extra; [assumption|]. eapply resolves_denotes; eassumption.
Qed.

Lemma refines_resolve_f_expression (w : World) (name : string) :
  P name -> live w ->
  refines same_value P w (_resolve_f_expression name) (_resolve_f_expression name).
Proof.
  intros HP Hlive. unfold _resolve_f_expression.
  apply refines_bind with (rel := denotes_base);
    [assumption | apply refines_self_queryset_base |].
  intros t l w1 Hlive1 _ Hl.
  apply refines_bind with (rel := same_value);
    [assumption | now apply refines_resolve_expression |].
  intros expression ? w2 Hlive2 Hext2 Hsame; red in Hsame; subst.
  pose proof (resolves_denotes_base _ _ _ _ _ Hlive1 Hext2 Hl) as (_ & Hl2).
  apply refines_bind with (rel := same_value);
    [assumption | now apply refines_model |].
  intros m ? w3 Hlive3 _ Hsame; red in Hsame; subst.
  apply refines_bind with (rel := same_value);
    [assumption | apply refines_lift |].
  intros [[lookups parts] flag] ? w4 Hlive4 _ Hsame; red in Hsame; subst.
  apply refines_bind with (rel := same_value);
    [assumption | apply refines_assert |].
  intros _ _ w5 Hlive5 _ _.
  apply refines_bind with (rel := same_value);
    [assumption | apply refines_lift |].
  intros parts' ? w6 _ _ Hsame; red in Hsame; subst.
  apply refines_ret.
Qed.

Lemma refines_as_sql_reference (w : World) (ref : PyVal) :
  (forall name, ref = PF name -> P name) -> live w ->
  refines same_value P w (_as_sql_reference ref) (_as_sql_reference ref).
Proof.
  intros HP Hlive.
  destruct ref; cbn [_as_sql_reference];
    try apply (refines_ret Scalar); try apply (refines_raise Scalar Scalar).
  apply refines_bind with (rel := same_value);
    [assumption | now apply refines_resolve_f_expression; [apply HP|] |].
  intros s ? w1 _ _ Hsame; red in Hsame; subst. apply refines_ret.
Qed.

Lemma refines_constrain_id
    (w : World) (alias : string) (param : PyVal) (t : QuerySet) (l : nat) :
  (forall name, param = PF name -> P name) ->
  live w -> denotes w t l ->
  refines denotes P w (constrain_id alias param t) (constrain_id alias param l).
Proof.
  intros HP Hlive Hl. unfold constrain_id.
  destruct (truthy param); [|now apply refines_ret_object].
  apply refines_bind with (rel := same_value);
    [assumption | now apply refines_as_sql_reference |].
  intros id ? w1 Hlive1 Hext Hsame; red in Hsame; subst.
  apply refines_add_extras; [assumption|].
  eapply resolves_denotes; eassumption.
Qed.

Lemma refines_constrain_role_kind
    (w : World) (role_kind : PyVal) (t : QuerySet) (l : nat) :
  live w -> denotes w t l ->
  refines denotes P w (constrain_role_kind role_kind t) (constrain_role_kind role_kind l).
Proof.
  intros Hlive Hl. unfold constrain_role_kind.
  destruct (truthy role_kind); [|now apply refines_ret_object].
  apply refines_bind with (rel := same_value);
    [assumption | apply refines_lift |].
  intros kind_list ? w1 Hlive1 Hext Hsame; red in Hsame; subst.
  apply refines_add_extras; [assumption|].
  eapply resolves_denotes; eassumption.
Qed.

(** On the store, [filter_by_hierarchy] computes what it computes on
    values; it creates objects and resolves the [F] expressions among its
    identifier parameters on the instance's queryset, and changes nothing
    else. *)
Lemma refines_filter_by_hierarchy (w : World) (su rk ac dc tu : PyVal) :
  (forall name, is_f_parameter su ac dc tu name -> P name) ->
  live w ->
  refines denotes P w (filter_by_hierarchy FACILITY su rk ac dc tu)
                      (filter_by_hierarchy FACILITY su rk ac dc tu).
Proof.
  intros HP Hlive. unfold filter_by_hierarchy.
  assert (Hsu : forall name, su = PF name -> P name)
    by (intros name ->; apply HP; unfold is_f_parameter; cbn; tauto).
  assert (Hac : forall name, ac = PF name -> P name)
    by (intros name ->; apply HP; unfold is_f_parameter; cbn; tauto).
  assert (Hdc : forall name, dc = PF name -> P name)
    by (intros name ->; apply HP; unfold is_f_parameter; cbn; tauto).
  assert (Htu : forall name, tu = PF name -> P name)
    by (intros name ->; apply HP; unfold is_f_parameter; cbn; tauto).
  apply refines_bind with (rel := denotes);
    [assumption | now apply refines_self_queryset |].
  intros t0 l0 w0 Hlive0 _ Hl0.
  apply refines_bind with (rel := denotes); [assumption | |].
  { destruct (truthy tu); [|now apply refines_ret_object].
    apply refines_bind with (rel := denotes);
      [assumption | now apply refines_add_extras |].
    intros ta la wa Hlivea Hexta Hla.
    apply refines_bind with (rel := denotes); [assumption | |].
    - apply refines_add_extras; [assumption|].
      eapply resolves_denotes; eassumption.
    - intros tb lb wb Hliveb Hextb Hlb.
      apply refines_or; [assumption|assumption|].
      eapply resolves_denotes; eassumption. }
  intros t1 l1 w1 Hlive1 _ Hl1.
  apply refines_bind with (rel := denotes);
    [assumption | now apply refines_add_extras |].
  intros t2 l2 w2 Hlive2 _ Hl2.
  apply refines_bind with (rel := denotes); [assumption | |].
  { destruct (truthy su || truthy rk);
      [now apply refines_add_extras | now apply refines_ret_object]. }
  intros t3 l3 w3 Hlive3 _ Hl3.
  apply refines_bind with (rel := denotes);
    [assumption | now apply (refines_constrain_id w3 "source_user" su) |].
  intros t4 l4 w4 Hlive4 _ Hl4.
  apply refines_bind with (rel := denotes);
    [assumption | now apply (refines_constrain_role_kind w4 rk) |].
  intros t5 l5 w5 Hlive5 _ Hl5.
  apply refines_bind with (rel := denotes);
    [assumption | now apply (refines_constrain_id w5 "ancestor_collection" ac) |].
  intros t6 l6 w6 Hlive6 _ Hl6.
  apply refines_bind with (rel := denotes);
    [assumption | now apply (refines_constrain_id w6 "descendant_collection" dc) |].
  intros t7 l7 w7 Hlive7 _ Hl7.
  apply refines_bind with (rel := denotes);
    [assumption | now apply (refines_constrain_id w7 "target_user" tu) |].
  intros t8 l8 w8 Hlive8 _ Hl8.
  now apply refines_ret_object.
Qed.

End Refinement.


(** A call that raises after part 1 has run: the objects part 1 created stay
    in the store, none of them is returned, and the base queryset is what it
    was. *)
Example failed_call_returns_nothing :
  let (r, w') := filter_by_hierarchy (M:=Stateful) "facility" PNone PNone
                   (PObject true) PNone (PInstance (SInt 3)) Demo.world in
  r = Err NotAValidReference /\ next w' = 5 /\
  inst_queryset w' = 0 /\ objects w' 0 = All Demo.log_model /\
  resolved w' 0 = [].
Proof. repeat split. Qed.



(** * Further properties of the methods *)

(** ** [_resolve_f_expression] *)

(** X1.  When Django resolves [F(name)] and splits [name] into the single
    lookup [exact] and the path [front ++ [field]], the reference is the base
    table's name, the components of [front] and, in place of [field], the
    column name of the target field, joined by dots. *)
Theorem f_expression_resolves_to_column
    (self : Self) (name : string) (expression : Expression)
    (front : list string) (field : string) (flag : bool) :
  resolve_expression (model (queryset self)) name = Ok expression ->
  solve_lookup_type (model (queryset self)) name
  = Ok (["exact"], (front ++ [field])%list, flag) ->
  _as_sql_reference (PF name) self
  = Ok (SStr (join "." (db_table (model (queryset self))
                          :: front ++ [target_attname expression]))).
Proof.
  intros Hresolve Hsolve.
  cbn [_as_sql_reference]. rewrite bind_value, resolve_f_expression_value.
  cbn zeta. rewrite Hresolve, Hsolve. cbn [is_exact].
  rewrite String.eqb_refl, set_last_app. reflexivity.
Qed.

Lemma f_expression_resolves_to_column_witness :
  _as_sql_reference (PF "collection") Demo.self
  = Ok (SStr (join "." ("logger_log" :: [] ++ ["collection_id"]))).
Proof.
  apply (f_expression_resolves_to_column Demo.self "collection"
           {| target_attname := "collection_id" |} [] "collection" false);
    reflexivity.
Defined.

(** X2.  An error of Django's field resolution reaches the caller unchanged:
    when [resolve_expression] raises, or when it returns and
    [solve_lookup_type] raises, [_as_sql_reference] raises that error,
    whatever the lookups would have been. *)
Theorem field_resolution_error_propagates
    (self : Self) (name : string) (e : PyError) :
  resolve_expression (model (queryset self)) name = Err e \/
  ((exists expression,
       resolve_expression (model (queryset self)) name = Ok expression) /\
   solve_lookup_type (model (queryset self)) name = Err e) ->
  _as_sql_reference (PF name) self = Err e.
Proof.
  intros [Hresolve | [[expression Hresolve] Hsolve]];
    cbn [_as_sql_reference]; rewrite bind_value, resolve_f_expression_value;
    cbn zeta; rewrite Hresolve; [reflexivity|].
  now rewrite Hsolve.
Qed.

Lemma field_resolution_error_propagates_witness :
  _as_sql_reference (PF "no_such_field") Demo.self = Err FieldError.
Proof.
  apply (field_resolution_error_propagates Demo.self "no_such_field" FieldError).
  left. reflexivity.
Defined.

(** ** References of different kinds that give the same query *)

(** X3.  A model instance and its [id] passed as a literal are
    interchangeable in each of the four identifier parameters, provided the
    [id] is truthy; this holds in any interpretation of the queryset
    operations. *)
Theorem instance_same_as_its_id
    {M : Type -> Type} {Q : Type} {R : Runtime M Q}
    (FACILITY : string) (id : Scalar) (su rk ac dc tu : PyVal) :
  truthy (PScalar id) = true ->
  filter_by_hierarchy (M:=M) FACILITY (PInstance id) rk ac dc tu
  = filter_by_hierarchy FACILITY (PScalar id) rk ac dc tu /\
  filter_by_hierarchy (M:=M) FACILITY su rk (PInstance id) dc tu
  = filter_by_hierarchy FACILITY su rk (PScalar id) dc tu /\
  filter_by_hierarchy (M:=M) FACILITY su rk ac (PInstance id) tu
  = filter_by_hierarchy FACILITY su rk ac (PScalar id) tu /\
  filter_by_hierarchy (M:=M) FACILITY su rk ac dc (PInstance id)
  = filter_by_hierarchy FACILITY su rk ac dc (PScalar id).
Proof.
  intro Hid.
  unfold filter_by_hierarchy.
  rewrite !Hid.
  repeat split; reflexivity.
Qed.

Lemma instance_same_as_its_id_witness :
  filter_by_hierarchy (M:=Pure) "facility" (PInstance (SInt 3)) PNone PNone (PF "id") PNone
  = filter_by_hierarchy "facility" (PScalar (SInt 3)) PNone PNone (PF "id") PNone /\
  filter_by_hierarchy (M:=Pure) "facility" PNone PNone (PInstance (SInt 3)) (PF "id") PNone
  = filter_by_hierarchy "facility" PNone PNone (PScalar (SInt 3)) (PF "id") PNone /\
  filter_by_hierarchy (M:=Pure) "facility" PNone PNone PNone (PInstance (SInt 3)) PNone
  = filter_by_hierarchy "facility" PNone PNone PNone (PScalar (SInt 3)) PNone /\
  filter_by_hierarchy (M:=Pure) "facility" PNone PNone PNone (PF "id") (PInstance (SInt 3))
  = filter_by_hierarchy "facility" PNone PNone PNone (PF "id") (PScalar (SInt 3)).
Proof.
  apply (instance_same_as_its_id (M:=Pure) "facility" (SInt 3)
           PNone PNone PNone (PF "id") PNone).
  reflexivity.
Defined.

(** X4.  The two differ when the [id] is falsy ([0] or the empty string): the
    instance is truthy, so its constraint is attached, while the literal is
    skipped. *)
Theorem instance_with_falsy_id_is_constrained
    (FACILITY : string) (id : Scalar) (self : Self) :
  truthy (PScalar id) = false ->
  filter_by_hierarchy FACILITY PNone PNone (PInstance id) PNone PNone self
  = Ok (Extra (Extra (queryset self) (containment self))
              {| tables := None;
                 where_ := Some ["ancestor_collection.id = " ++ py_str id] |}) /\
  filter_by_hierarchy FACILITY PNone PNone (PScalar id) PNone PNone self
  = Ok (Extra (queryset self) (containment self)).
Proof.
  intro Hid. split.
  - reflexivity.
  - unfold filter_by_hierarchy. rewrite Hid. reflexivity.
Qed.

Lemma instance_with_falsy_id_is_constrained_witness :
  filter_by_hierarchy "facility" PNone PNone (PInstance (SInt 0)) PNone PNone Demo.self
  = Ok (Extra (Extra (All Demo.log_model) (containment Demo.self))
              {| tables := None;
                 where_ := Some ["ancestor_collection.id = 0"] |}) /\
  filter_by_hierarchy "facility" PNone PNone (PScalar (SInt 0)) PNone PNone Demo.self
  = Ok (Extra (All Demo.log_model) (containment Demo.self)).
Proof.
  apply (instance_with_falsy_id_is_constrained "facility" (SInt 0) Demo.self).
  reflexivity.
Defined.

Lemma resolved_reference_nonempty (name : string) (self : Self) (v : Scalar) :
  _as_sql_reference (PF name) self = Ok v -> truthy (PScalar v) = true.
Proof.
  intro Hv.
  cbn [_as_sql_reference] in Hv. rewrite bind_value in Hv.
  destruct (_resolve_f_expression (M:=Pure) name self) as [s|e] eqn:Hs;
    [|discriminate].
  injection Hv as <-.
  rewrite resolve_f_expression_value in Hs. cbn zeta in Hs.
  destruct (resolve_expression (model (queryset self)) name) as [x|e];
    [|discriminate].
  destruct (solve_lookup_type (model (queryset self)) name) as [[[lookups parts] flag]|e];
    [|discriminate].
  destruct (is_exact lookups); [|discriminate].
  destruct (set_last parts (target_attname x)) as [parts'|e] eqn:Hset;
    [|discriminate].
  injection Hs as <-.
  destruct (set_last_shape _ _ _ Hset) as (front & -> & _).
  destruct (db_table (model (queryset self))); destruct front; reflexivity.
Qed.

(** X5.  The resolved reference is spliced into the condition as text, like
    a string literal: an [F] expression that resolves to [v] gives the same
    result as the literal [v] in each of the four identifier parameters. *)
Theorem f_expression_same_as_its_reference
    (FACILITY : string) (name : string) (v : Scalar)
    (su rk ac dc tu : PyVal) (self : Self) :
  _as_sql_reference (PF name) self = Ok v ->
  filter_by_hierarchy FACILITY (PF name) rk ac dc tu self
  = filter_by_hierarchy FACILITY (PScalar v) rk ac dc tu self /\
  filter_by_hierarchy FACILITY su rk (PF name) dc tu self
  = filter_by_hierarchy FACILITY su rk (PScalar v) dc tu self /\
  filter_by_hierarchy FACILITY su rk ac (PF name) tu self
  = filter_by_hierarchy FACILITY su rk ac (PScalar v) tu self /\
  filter_by_hierarchy FACILITY su rk ac dc (PF name) self
  = filter_by_hierarchy FACILITY su rk ac dc (PScalar v) self.
Proof.
  intro Hv.
  pose proof (resolved_reference_nonempty name self v Hv) as Htruthy.
  assert (Hid : forall alias,
             id_extras alias (PF name) self = id_extras alias (PScalar v) self).
  { intro alias. unfold id_extras. rewrite Htruthy, Hv. reflexivity. }
  rewrite !filter_by_hierarchy_value.
  cbn [value_extras source_order step_extras].
  unfold role_extras, joined_base. rewrite !Hid, !Htruthy.
  repeat split; reflexivity.
Qed.

Lemma f_expression_same_as_its_reference_witness :
  let v := SStr "logger_log.collection_id" in
  filter_by_hierarchy "facility" (PF "collection") PNone PNone PNone PNone Demo.self
  = filter_by_hierarchy "facility" (PScalar v) PNone PNone PNone PNone Demo.self /\
  filter_by_hierarchy "facility" PNone PNone (PF "collection") PNone PNone Demo.self
  = filter_by_hierarchy "facility" PNone PNone (PScalar v) PNone PNone Demo.self /\
  filter_by_hierarchy "facility" PNone PNone PNone (PF "collection") PNone Demo.self
  = filter_by_hierarchy "facility" PNone PNone PNone (PScalar v) PNone Demo.self /\
  filter_by_hierarchy "facility" PNone PNone PNone PNone (PF "collection") Demo.self
  = filter_by_hierarchy "facility" PNone PNone PNone PNone (PScalar v) Demo.self.
Proof.
  apply (f_expression_same_as_its_reference "facility" "collection"
           (SStr "logger_log.collection_id") PNone PNone PNone PNone PNone Demo.self).
  reflexivity.
Defined.

(** ** What the result joins and keeps *)

Lemma joined_extend (q : QuerySet) (es : list Extras) :
  joined (extend q es) = (joined q ++ flat_map aliases es)%list.
Proof.
  unfold extend. revert q.
  induction es as [|e es IH]; intro q; cbn [fold_left flat_map].
  - now rewrite app_nil_r.
  - rewrite IH. cbn [joined]. now rewrite <- app_assoc.
Qed.

Lemma model_extend (q : QuerySet) (es : list Extras) :
  model (extend q es) = model q.
Proof.
  unfold extend. revert q.
  induction es as [|e es IH]; intro q; cbn [fold_left]; [reflexivity|].
  now rewrite IH.
Qed.

(** X6.  The tables a returned queryset joins are decided by part 1 alone:
    the base's own, [target_user] and [membership] exactly when
    [target_user] is truthy (on top of the base's own once more, from the
    second operand of the union), always the two collection aliases, and
    [source_user] and [role], once, exactly when [source_user] or
    [role_kind] is truthy.  The value constraints join nothing. *)
Theorem joined_tables
    (FACILITY : string) (su rk ac dc tu : PyVal) (self : Self) (q : QuerySet) :
  filter_by_hierarchy FACILITY su rk ac dc tu self = Ok q ->
  let names := _table_names self in
  let quoted table alias := dq ++ table ++ dq ++ " AS " ++ dq ++ alias ++ dq in
  joined q
  = ((if truthy tu
      then joined (queryset self) ++ joined (queryset self)
           ++ [quoted (facilityuser_table_name names) "target_user";
               quoted (membership_table_name names) "membership"]
      else joined (queryset self))
     ++ [quoted (collection_table_name names) "ancestor_collection";
         quoted (collection_table_name names) "descendant_collection"]
     ++ (if truthy su || truthy rk
         then [quoted (facilityuser_table_name names) "source_user";
               quoted (role_table_name names) "role"]
         else []))%list.
Proof.
  intros Hq names quoted.
  rewrite filter_by_hierarchy_value in Hq.
  destruct (value_extras source_order su rk ac dc tu self) as [es|e] eqn:Hes;
    [|discriminate].
  injection Hq as <-.
  rewrite extend_app.
  rewrite (joined_extend_no_table _ es
             (value_extras_add_no_table su rk ac dc tu self _ _ Hes)).
  rewrite joined_extend. cbn [joined].
  unfold joined_base, role_extras.
  destruct (truthy tu); destruct (truthy su || truthy rk);
    cbn [joined flat_map member_via_facility member_via_hierarchy];
    rewrite ?app_nil_r, <- ?app_assoc; reflexivity.
Qed.

Lemma joined_tables_witness :
  let q := extend (Extra (Or (member_via_facility "facility" Demo.self)
                             (member_via_hierarchy Demo.self))
                         (containment Demo.self))
                  [formatted Demo.names _role_extra;
                   where_extras ["role.kind IN ('admin')"];
                   where_extras ["target_user.id = 3"]] in
  let quoted table alias := dq ++ table ++ dq ++ " AS " ++ dq ++ alias ++ dq in
  joined q
  = [quoted "kolibriauth_facilityuser" "target_user";
     quoted "kolibriauth_membership" "membership";
     quoted "kolibriauth_collection" "ancestor_collection";
     quoted "kolibriauth_collection" "descendant_collection";
     quoted "kolibriauth_facilityuser" "source_user";
     quoted "kolibriauth_role" "role"].
Proof.
  apply (joined_tables "facility" PNone (PStr "admin") PNone PNone
           (PInstance (SInt 3)) Demo.self).
  reflexivity.
Defined.

(** X7.  A returned queryset is a queryset of the base queryset's model. *)
Theorem result_keeps_model
    (FACILITY : string) (su rk ac dc tu : PyVal) (self : Self) (q : QuerySet) :
  filter_by_hierarchy FACILITY su rk ac dc tu self = Ok q ->
  model q = model (queryset self).
Proof.
  intro Hq.
  rewrite filter_by_hierarchy_value in Hq.
  destruct (value_extras source_order su rk ac dc tu self) as [es|e];
    [|discriminate].
  injection Hq as <-.
  rewrite model_extend. cbn [model].
  unfold joined_base. now destruct (truthy tu).
Qed.

Lemma result_keeps_model_witness :
  model (extend (Extra (Or (member_via_facility "facility" Demo.self)
                           (member_via_hierarchy Demo.self))
                       (containment Demo.self))
                [where_extras ["target_user.id = 3"]])
  = Demo.log_model.
Proof.
  apply (result_keeps_model "facility" PNone PNone PNone PNone
           (PInstance (SInt 3)) Demo.self).
  reflexivity.
Defined.

(** ** The rows a returned queryset selects *)

Section Selected.

Variable FACILITY : string.
Variable Row : Type.
Variable holds : string -> Row -> bool.
Variable in_base : Model -> Row -> bool.

Lemma selected_parts (su rk ac dc tu : PyVal) (self : Self) (q : QuerySet) (r : Row) :
  filter_by_hierarchy FACILITY su rk ac dc tu self = Ok q ->
  selects Row holds in_base q r = true ->
  exists es,
    value_extras source_order su rk ac dc tu self = Ok es /\
    selects Row holds in_base (joined_base FACILITY tu self) r = true /\
    all_hold Row holds r (containment self) = true /\
    forallb (all_hold Row holds r) (role_extras su rk self) = true /\
    forallb (all_hold Row holds r) es = true.
Proof.
  intros Hq Hsel.
  rewrite filter_by_hierarchy_value in Hq.
  destruct (value_extras source_order su rk ac dc tu self) as [es|e];
    [|discriminate].
  injection Hq as <-.
  rewrite selects_extend, forallb_app in Hsel. cbn [selects] in Hsel.
  fold (all_hold Row holds r (containment self)) in Hsel.
  apply andb_prop in Hsel. destruct Hsel as [Hfirst Hrest].
  apply andb_prop in Hfirst. destruct Hfirst as [Hbase Hcont].
  apply andb_prop in Hrest. destruct Hrest as [Hrole Hvalues].
  now exists es.
Qed.

(** X8.  The filter only narrows: a row the returned queryset selects is
    selected by the base queryset, and it satisfies the containment
    condition. *)
Theorem result_narrows_base
    (su rk ac dc tu : PyVal) (self : Self) (q : QuerySet) (r : Row) :
  filter_by_hierarchy FACILITY su rk ac dc tu self = Ok q ->
  selects Row holds in_base q r = true ->
  selects Row holds in_base (queryset self) r = true /\
  holds "descendant_collection.lft BETWEEN ancestor_collection.lft AND ancestor_collection.rght" r
  = true.
Proof.
  intros Hq Hsel.
  destruct (selected_parts _ _ _ _ _ _ _ _ Hq Hsel) as (es & _ & Hbase & Hcont & _).
  split.
  - unfold joined_base in Hbase.
    destruct (truthy tu); [|assumption].
    cbn [selects member_via_facility member_via_hierarchy] in Hbase.
    apply orb_prop in Hbase.
    destruct Hbase as [H|H]; apply andb_prop in H; tauto.
  - unfold all_hold in Hcont. cbn in Hcont.
    now rewrite andb_true_r in Hcont.
Qed.

(** X9.  With a truthy [target_user], a selected row satisfies the two
    conditions of the facility path or the two of the membership path. *)
Theorem target_user_paths
    (su rk ac dc tu : PyVal) (self : Self) (q : QuerySet) (r : Row) :
  truthy tu = true ->
  filter_by_hierarchy FACILITY su rk ac dc tu self = Ok q ->
  selects Row holds in_base q r = true ->
  (holds ("ancestor_collection.kind = '" ++ FACILITY ++ "'") r = true /\
   holds "ancestor_collection.dataset_id = target_user.dataset_id" r = true) \/
  (holds "membership.user_id = target_user.id" r = true /\
   holds "membership.collection_id = descendant_collection.id" r = true).
Proof.
  intros Htu Hq Hsel.
  destruct (selected_parts _ _ _ _ _ _ _ _ Hq Hsel) as (es & _ & Hbase & _).
  unfold joined_base in Hbase. rewrite Htu in Hbase.
  cbn [selects member_via_facility member_via_hierarchy] in Hbase.
  apply orb_prop in Hbase.
  destruct Hbase as [H|H]; apply andb_prop in H; destruct H as [_ H];
    cbn in H; rewrite andb_true_r in H; apply andb_prop in H; tauto.
Qed.

(** X10.  With a truthy [source_user] or [role_kind], a selected row
    satisfies the two conditions that tie the role to the source user and
    to the ancestor collection. *)
Theorem role_join_conditions
    (su rk ac dc tu : PyVal) (self : Self) (q : QuerySet) (r : Row) :
  truthy su || truthy rk = true ->
  filter_by_hierarchy FACILITY su rk ac dc tu self = Ok q ->
  selects Row holds in_base q r = true ->
  holds "role.user_id = source_user.id" r = true /\
  holds "role.collection_id = ancestor_collection.id" r = true.
Proof.
  intros Hrole Hq Hsel.
  destruct (selected_parts _ _ _ _ _ _ _ _ Hq Hsel) as (es & _ & _ & _ & H & _).
  unfold role_extras in H. rewrite Hrole in H.
  cbn in H. rewrite !andb_true_r in H.
  apply andb_prop in H. tauto.
Qed.

Lemma id_extras_hold (alias : string) (param : PyVal) (self : Self)
    (es : list Extras) (r : Row) :
  truthy param = true ->
  id_extras alias param self = Ok es ->
  forallb (all_hold Row holds r) es = true ->
  exists id,
    _as_sql_reference param self = Ok id /\
    holds (alias ++ ".id = " ++ py_str id) r = true.
Proof.
  intros Hp Hes Hall.
  unfold id_extras in Hes. rewrite Hp in Hes.
  destruct (_as_sql_reference (M:=Pure) param self) as [id|e]; [|discriminate].
  injection Hes as <-.
  exists id. split; [reflexivity|].
  cbn in Hall. now rewrite !andb_true_r in Hall.
Qed.

(** X11.  Each truthy identifier parameter constrains the selected rows: the
    parameter resolves to some [id], and a selected row satisfies
    [alias.id = id] for the alias of that parameter. *)
Theorem identifier_constraints_hold
    (su rk ac dc tu : PyVal) (self : Self) (q : QuerySet) (r : Row) :
  filter_by_hierarchy FACILITY su rk ac dc tu self = Ok q ->
  selects Row holds in_base q r = true ->
  let constrained alias param :=
    truthy param = true ->
    exists id, _as_sql_reference param self = Ok id /\
               holds (alias ++ ".id = " ++ py_str id) r = true in
  constrained "source_user" su /\
  constrained "ancestor_collection" ac /\
  constrained "descendant_collection" dc /\
  constrained "target_user" tu.
Proof.
  intros Hq Hsel constrained.
  destruct (selected_parts _ _ _ _ _ _ _ _ Hq Hsel) as (es & Hes & _ & _ & _ & Hall).
  cbn [value_extras source_order step_extras] in Hes.
  destruct (id_extras "source_user" su self) as [e1|e] eqn:H1; [|discriminate].
  destruct (kind_extras rk) as [e2|e]; [|discriminate].
  destruct (id_extras "ancestor_collection" ac self) as [e3|e] eqn:H3; [|discriminate].
  destruct (id_extras "descendant_collection" dc self) as [e4|e] eqn:H4; [|discriminate].
  destruct (id_extras "target_user" tu self) as [e5|e] eqn:H5; [|discriminate].
  injection Hes as <-.
  rewrite !forallb_app in Hall.
  repeat (apply andb_prop in Hall; destruct Hall as [?Hall Hall]).
  unfold constrained.
  repeat split; intro Hp; eapply id_extras_hold; eassumption.
Qed.

End Selected.

Lemma result_narrows_base_witness :
  Rows.in_base Demo.log_model Rows.member_row = true /\
  Rows.holds "descendant_collection.lft BETWEEN ancestor_collection.lft AND ancestor_collection.rght"
    Rows.member_row = true.
Proof.
  apply (result_narrows_base "facility" Rows.Row Rows.holds Rows.in_base
           (PF "id") PNone PNone (PInt 7) (PInstance (SInt 3)) Demo.self
           (extend (Extra (Or (member_via_facility "facility" Demo.self)
                              (member_via_hierarchy Demo.self))
                          (containment Demo.self))
                   [formatted Demo.names _role_extra;
                    where_extras ["source_user.id = logger_log.id"];
                    where_extras ["descendant_collection.id = 7"];
                    where_extras ["target_user.id = 3"]])
           Rows.member_row); reflexivity.
Defined.

Lemma target_user_paths_witness :
  (Rows.holds "ancestor_collection.kind = 'facility'" Rows.member_row = true /\
   Rows.holds "ancestor_collection.dataset_id = target_user.dataset_id" Rows.member_row
   = true) \/
  (Rows.holds "membership.user_id = target_user.id" Rows.member_row = true /\
   Rows.holds "membership.collection_id = descendant_collection.id" Rows.member_row
   = true).
Proof.
  apply (target_user_paths "facility" Rows.Row Rows.holds Rows.in_base
           (PF "id") PNone PNone (PInt 7) (PInstance (SInt 3)) Demo.self
           (extend (Extra (Or (member_via_facility "facility" Demo.self)
                              (member_via_hierarchy Demo.self))
                          (containment Demo.self))
                   [formatted Demo.names _role_extra;
                    where_extras ["source_user.id = logger_log.id"];
                    where_extras ["descendant_collection.id = 7"];
                    where_extras ["target_user.id = 3"]])
           Rows.member_row); reflexivity.
Defined.

Lemma role_join_conditions_witness :
  Rows.holds "role.user_id = source_user.id" Rows.member_row = true /\
  Rows.holds "role.collection_id = ancestor_collection.id" Rows.member_row = true.
Proof.
  apply (role_join_conditions "facility" Rows.Row Rows.holds Rows.in_base
           (PF "id") PNone PNone (PInt 7) (PInstance (SInt 3)) Demo.self
           (extend (Extra (Or (member_via_facility "facility" Demo.self)
                              (member_via_hierarchy Demo.self))
                          (containment Demo.self))
                   [formatted Demo.names _role_extra;
                    where_extras ["source_user.id = logger_log.id"];
                    where_extras ["descendant_collection.id = 7"];
                    where_extras ["target_user.id = 3"]])
           Rows.member_row); reflexivity.
Defined.

Lemma identifier_constraints_hold_witness :
  exists id,
    _as_sql_reference (PF "id") Demo.self = Ok id /\
    Rows.holds ("source_user" ++ ".id = " ++ py_str id) Rows.member_row = true.
Proof.
  destruct (identifier_constraints_hold "facility" Rows.Row Rows.holds Rows.in_base
              (PF "id") PNone PNone (PInt 7) (PInstance (SInt 3)) Demo.self
              (extend (Extra (Or (member_via_facility "facility" Demo.self)
                                 (member_via_hierarchy Demo.self))
                             (containment Demo.self))
                      [formatted Demo.names _role_extra;
                       where_extras ["source_user.id = logger_log.id"];
                       where_extras ["descendant_collection.id = 7"];
                       where_extras ["target_user.id = 3"]])
              Rows.member_row eq_refl eq_refl) as (Hsource & _).
  apply Hsource. reflexivity.
Defined.

(** ** When a call raises *)

Lemma strings_of_all_strings (items : list Scalar) :
  forallb is_str items = true -> exists kinds, strings_of items = Ok kinds.
Proof.
  induction items as [|[n|k] rest IH]; cbn; intro Hall.
  - now exists [].
  - discriminate.
  - destruct (IH Hall) as (kinds & ->). now exists (k :: kinds).
Qed.

Lemma plain_reference_extras (alias : string) (v : PyVal) (self : Self) :
  plain_reference v = true -> exists es, id_extras alias v self = Ok es.
Proof.
  unfold plain_reference, id_extras. intro Hv.
  destruct (truthy v); [|now exists []].
  destruct v; try discriminate; cbn; eauto.
Qed.

Lemma plain_kinds_extras (v : PyVal) :
  plain_kinds v = true -> exists es, kind_extras v = Ok es.
Proof.
  unfold plain_kinds, kind_extras. intro Hv.
  destruct (truthy v); [|now exists []].
  destruct v as [|[n|k]|items| | |]; try discriminate; cbn in *; eauto.
  destruct (strings_of_all_strings items Hv) as (kinds & ->). eauto.
Qed.

(** X12.  A call raises only through an [F] expression, a value that is no
    reference, or a [role_kind] that is no string or list of strings: when
    every identifier parameter is falsy, an [int], a [str] or a model
    instance and [role_kind] is falsy, a string or a list of strings, the
    call returns a queryset. *)
Theorem plain_arguments_never_raise
    (FACILITY : string) (su rk ac dc tu : PyVal) (self : Self) :
  plain_reference su = true ->
  plain_kinds rk = true ->
  plain_reference ac = true ->
  plain_reference dc = true ->
  plain_reference tu = true ->
  exists q, filter_by_hierarchy FACILITY su rk ac dc tu self = Ok q.
Proof.
  intros Hsu Hrk Hac Hdc Htu.
  rewrite filter_by_hierarchy_value.
  cbn [value_extras source_order step_extras].
  destruct (plain_reference_extras "source_user" su self Hsu) as (e1 & ->).
  destruct (plain_kinds_extras rk Hrk) as (e2 & ->).
  destruct (plain_reference_extras "ancestor_collection" ac self Hac) as (e3 & ->).
  destruct (plain_reference_extras "descendant_collection" dc self Hdc) as (e4 & ->).
  destruct (plain_reference_extras "target_user" tu self Htu) as (e5 & ->).
  eauto.
Qed.

Lemma plain_arguments_never_raise_witness :
  exists q,
    filter_by_hierarchy "facility" (PInstance (SInt 3))
      (PList [SStr "admin"; SStr "coach"]) (PStr "c0ffee") (PInt 0) PNone Demo.self
    = Ok q.
Proof.
  apply (plain_arguments_never_raise "facility" (PInstance (SInt 3))
           (PList [SStr "admin"; SStr "coach"]) (PStr "c0ffee") (PInt 0) PNone
           Demo.self); reflexivity.
Defined.

Lemma value_extras_first_error
    (su rk ac dc tu : PyVal) (self : Self)
    (before after : list Param) (p : Param) (e : PyError) :
  (forall p', In p' before -> exists es, step_extras su rk ac dc tu p' self = Ok es) ->
  step_extras su rk ac dc tu p self = Err e ->
  value_extras (before ++ p :: after) su rk ac dc tu self = Err e.
Proof.
  intros Hbefore Hp.
  induction before as [|p' before IH]; cbn [app value_extras].
  - now rewrite Hp.
  - destruct (Hbefore p' (or_introl eq_refl)) as (es & ->).
    rewrite IH; [reflexivity|].
    intros p'' Hin. apply Hbefore. now right.
Qed.

(** X13.  The blocks of part 2 run in the order of the source and the first
    one that raises decides the exception: when the blocks before [p]
    succeed and the block of [p] raises [e], the call raises [e], whatever
    the parameters of the later blocks are. *)
Theorem first_failing_block_decides
    (FACILITY : string) (su rk ac dc tu : PyVal) (self : Self)
    (before after : list Param) (p : Param) (e : PyError) :
  source_order = (before ++ p :: after)%list ->
  (forall p', In p' before -> exists es, step_extras su rk ac dc tu p' self = Ok es) ->
  step_extras su rk ac dc tu p self = Err e ->
  filter_by_hierarchy FACILITY su rk ac dc tu self = Err e.
Proof.
  intros Horder Hbefore Hp.
  rewrite filter_by_hierarchy_value, Horder.
  now rewrite (value_extras_first_error su rk ac dc tu self before after p e).
Qed.

Lemma first_failing_block_decides_witness :
  filter_by_hierarchy "facility" (PF "id") (PInt 5) (PF "no_such_field")
    (PObject true) PNone Demo.self
  = Err TypeError.
Proof.
  apply (first_failing_block_decides "facility" (PF "id") (PInt 5)
           (PF "no_such_field") (PObject true) PNone Demo.self
           [on_source_user] [on_ancestor_collection; on_descendant_collection;
                             on_target_user]
           on_role_kind TypeError).
  - reflexivity.
  - intros p' [<-|[]]. eexists. reflexivity.
  - reflexivity.
Defined.

Lemma strings_of_with_int (items : list Scalar) (n : Z) :
  In (SInt n) items -> strings_of items = Err TypeError.
Proof.
  induction items as [|[m|k] rest IH]; cbn [strings_of]; intro Hin.
  - destruct Hin.
  - reflexivity.
  - destruct Hin as [Heq|Hin]; [discriminate|].
    now rewrite (IH Hin).
Qed.

(** X14.  The kinds are joined as they are, never converted: a [role_kind]
    list with an [int] among its items, and a non-zero [int] as [role_kind],
    raise [TypeError]. *)
Theorem role_kind_must_be_strings
    (FACILITY : string) (ac dc tu : PyVal) (self : Self) :
  (forall items n, In (SInt n) items ->
     filter_by_hierarchy FACILITY PNone (PList items) ac dc tu self = Err TypeError) /\
  (forall n, n <> 0%Z ->
     filter_by_hierarchy FACILITY PNone (PInt n) ac dc tu self = Err TypeError).
Proof.
  split.
  - intros items n Hin.
    rewrite filter_by_hierarchy_value.
    cbn [value_extras source_order step_extras id_extras truthy].
    unfold kind_extras. cbn [listified py_join].
    rewrite (strings_of_with_int items n Hin).
    destruct items; [destruct Hin|reflexivity].
  - intros n Hn.
    rewrite filter_by_hierarchy_value.
    cbn [value_extras source_order step_extras id_extras truthy].
    unfold kind_extras, PInt. cbn [truthy listified py_join].
    apply Z.eqb_neq in Hn. now rewrite Hn.
Qed.

Lemma role_kind_must_be_strings_witness :
  filter_by_hierarchy "facility" PNone (PList [SStr "admin"; SInt 2]) PNone PNone PNone
    Demo.self = Err TypeError /\
  filter_by_hierarchy "facility" PNone (PInt 2) PNone PNone PNone Demo.self
  = Err TypeError.
Proof.
  destruct (role_kind_must_be_strings "facility" PNone PNone PNone Demo.self)
    as [Hlist Hint].
  split.
  - apply (Hlist _ 2%Z). right. left. reflexivity.
  - apply Hint. discriminate.
Defined.

(** ** Calls one after the other *)

(** X15.  An instance can be used again after a call that had no [F]
    expression among its identifier parameters: whether that call returned
    or raised, nothing that existed has changed, and a second call on the
    same instance does what it would have done without the first. *)
Theorem instance_is_reusable
    (FACILITY : string) (w : World)
    (su rk ac dc tu su' rk' ac' dc' tu' : PyVal) :
  live w ->
  (forall name, ~ is_f_parameter su ac dc tu name) ->
  let (_, w1) := filter_by_hierarchy (M:=Stateful) FACILITY su rk ac dc tu w in
  let (r2, w2) := filter_by_hierarchy (M:=Stateful) FACILITY su' rk' ac' dc' tu' w1 in
  extends w w1 /\
  resolves_on_base (is_f_parameter su' ac' dc' tu') w w2 /\
  match r2 with
  | Ok l =>
      filter_by_hierarchy (M:=Pure) FACILITY su' rk' ac' dc' tu' (self_of w)
      = Ok (objects w2 l)
  | Err e =>
      filter_by_hierarchy (M:=Pure) FACILITY su' rk' ac' dc' tu' (self_of w) = Err e
  end.
Proof.
  intros Hlive Hnone.
  pose proof (refines_filter_by_hierarchy FACILITY (is_f_parameter su ac dc tu)
                w su rk ac dc tu (fun _ H => H) Hlive) as H1.
  unfold refines in H1.
  destruct (filter_by_hierarchy (M:=Stateful) FACILITY su rk ac dc tu w) as [r1 w1].
  assert (Hres : resolves_on_base (is_f_parameter su ac dc tu) w w1)
    by (destruct r1; tauto).
  pose proof (resolves_nothing _ _ _ Hnone Hres) as Hext.
  pose proof (extends_resolves (is_f_parameter su' ac' dc' tu') _ _ Hlive Hext)
    as Hres'.
  pose proof (refines_filter_by_hierarchy FACILITY (is_f_parameter su' ac' dc' tu')
                w1 su' rk' ac' dc' tu' (fun _ H => H)
                (resolves_live _ _ _ Hlive Hres)) as H2.
  unfold refines in H2. rewrite (resolves_self _ _ _ Hlive Hres) in H2.
  destruct (filter_by_hierarchy (M:=Stateful) FACILITY su' rk' ac' dc' tu' w1)
    as [[l|e] w2].
  - destruct H2 as (Hext' & q & Hq & _ & Hobj).
    split; [assumption|].
    split; [eapply resolves_trans; eassumption|]. now rewrite Hobj.
  - destruct H2 as (Hext' & Hq).
    split; [assumption|].
    split; [eapply resolves_trans; eassumption|assumption].
Qed.

Lemma instance_is_reusable_witness :
  let (_, w1) := filter_by_hierarchy (M:=Stateful) "facility" PNone PNone
                   (PObject true) PNone (PInstance (SInt 3)) Demo.world in
  let (r2, w2) := filter_by_hierarchy (M:=Stateful) "facility" (PF "id") PNone
                    PNone PNone PNone w1 in
  extends Demo.world w1 /\
  resolves_on_base (is_f_parameter (PF "id") PNone PNone PNone) Demo.world w2 /\
  match r2 with
  | Ok l =>
      filter_by_hierarchy (M:=Pure) "facility" (PF "id") PNone PNone PNone PNone
        (self_of Demo.world)
      = Ok (objects w2 l)
  | Err e =>
      filter_by_hierarchy (M:=Pure) "facility" (PF "id") PNone PNone PNone PNone
        (self_of Demo.world) = Err e
  end.
Proof.
  apply (instance_is_reusable "facility" Demo.world PNone PNone (PObject true) PNone
           (PInstance (SInt 3)) (PF "id") PNone PNone PNone PNone).
  - unfold live. cbn. lia.
  - intros name [H|[H|[H|[H|[]]]]]; discriminate H.
Defined.
